(** * Cynical SecuritySpy: the HTTP reply engine and the server/camera model

    A shallow embedding of [asyn/http.py] (HeaderDict, Request.incoming,
    Request._prepare_body) and of [spy/core.py] (motions, SecuritySpy._configure,
    SecuritySpy._event_stream, Camera._refresh, Camera._event_tap), followed by
    the properties of the specification that concern them.

    Conventions.
    - Python [str] values are [string]s; [str.lower] and [str.capitalize] act
      on the ASCII letters (header text and event-tap lines are ASCII).
    - A Python exception is an [exn]; code that may raise returns an
      [outcome]; code that also mutates objects runs in the monad [M] over the
      [World], which keeps the mutations made before a raise.
    - Objects with identity (cameras, requests) live in stores indexed by
      allocation order; a [loc] is the identity of an object. *)

From Stdlib Require Import ZArith Ascii String.
From stdpp Require Import gmap strings list.

Local Open Scope Z_scope.

(** ** Python primitives *)

Module Py.

Inductive exn := KeyError | AttributeError | ValueError | TypeError | IndexError.

Inductive outcome (A : Type) :=
  | Return (a : A)
  | Raise (e : exn).
Arguments Return {A} a.
Arguments Raise {A} e.

Definition obind {A B} (m : outcome A) (k : A -> outcome B) : outcome B :=
  match m with
  | Return a => k a
  | Raise e => Raise e
  end.

(** [c.lower()] for one character. *)
Definition lower_ascii (c : ascii) : ascii :=
  let n := N_of_ascii c in
  if ((65 <=? n) && (n <=? 90))%N then ascii_of_N (n + 32) else c.

(** [c.upper()] for one character. *)
Definition upper_ascii (c : ascii) : ascii :=
  let n := N_of_ascii c in
  if ((97 <=? n) && (n <=? 122))%N then ascii_of_N (n - 32) else c.

(** [s.lower()] *)
Fixpoint lower (s : string) : string :=
  match s with
  | EmptyString => EmptyString
  | String c s' => String (lower_ascii c) (lower s')
  end.

(** [s.capitalize()]: first character upper-cased, the rest lower-cased. *)
Definition capitalize (s : string) : string :=
  match s with
  | EmptyString => EmptyString
  | String c s' => String (upper_ascii c) (lower s')
  end.

(** [s.split(sep)] for a one-character separator: never the empty list. *)
Fixpoint split (sep : ascii) (s : string) : list string :=
  match s with
  | EmptyString => [EmptyString]
  | String c s' =>
      if Ascii.eqb c sep then EmptyString :: split sep s'
      else match split sep s' with
           | x :: xs => String c x :: xs
           | [] => [String c EmptyString]
           end
  end.

(** [sep.join(l)] *)
Fixpoint join (sep : string) (l : list string) : string :=
  match l with
  | [] => EmptyString
  | [x] => x
  | x :: xs => x +:+ sep +:+ join sep xs
  end.

(** [s.startswith(p)] *)
Fixpoint startswith (s p : string) {struct p} : bool :=
  match p with
  | EmptyString => true
  | String c p' =>
      match s with
      | EmptyString => false
      | String d s' => Ascii.eqb c d && startswith s' p'
      end
  end.

(** Value of a decimal digit. *)
Definition digit (c : ascii) : option Z :=
  let n := N_of_ascii c in
  if ((48 <=? n) && (n <=? 57))%N then Some (Z.of_N n - 48) else None.

Fixpoint int_digits (acc : Z) (s : string) : option Z :=
  match s with
  | EmptyString => Some acc
  | String c s' =>
      match digit c with
      | Some d => int_digits (10 * acc + d) s'
      | None => None
      end
  end.

(** [int(s)] for an optional sign followed by a non-empty run of decimal
    digits (which covers the text of a [\d+] or [[0-9]+] regex group);
    anything else raises ValueError. *)
Definition int_unsigned (s : string) : outcome Z :=
  match s with
  | EmptyString => Raise ValueError
  | _ => match int_digits 0 s with
         | Some z => Return z
         | None => Raise ValueError
         end
  end.

Definition int (s : string) : outcome Z :=
  match s with
  | String "-"%char s' => obind (int_unsigned s') (fun z => Return (- z))
  | String "+"%char s' => int_unsigned s'
  | _ => int_unsigned s
  end.

(** Truth value of an optional string ([None] and [''] are false). *)
Definition truthy (v : option string) : bool :=
  match v with
  | None => false
  | Some EmptyString => false
  | Some _ => true
  end.

End Py.

Import Py.

(** ** asyn/http.py: HeaderDict *)

Module HeaderDict.

(** A stored value is a plain [str], or a [list] of them once a name was
    added more than once ([isinstance(prior, list)]). *)
Inductive hval :=
  | Single (value : string)
  | Multi (values : list string).

#[export] Instance hval_eq_dec : EqDecision hval.
Proof. solve_decision. Defined.

Abbreviation t := (gmap string hval).

(** [_key]: ['-'.join([s.capitalize() for s in value.split('-')])] *)
Definition _key (value : string) : string :=
  join "-" (map capitalize (split "-"%char value)).

(** [add] *)
Definition add (key value : string) (self : t) : t :=
  let key := _key key in
  match self !! key with
  | Some prior =>
      match prior with
      | Multi l => <[key := Multi (l ++ [value])]> self
      | Single p => <[key := Multi [p; value]]> self
      end
  | None => <[key := Single value]> self
  end.

(** [dict.__setitem__], inherited unchanged: [self[key] = value]. *)
Definition setitem (key value : string) (self : t) : t :=
  <[key := Single value]> self.

(** [_matches(pattern, value)]: both arguments are lower-cased first, so a
    [None] value raises before [value is None] is evaluated. *)
Definition _matches (pattern : string) (value : option string) : outcome bool :=
  let pattern := lower pattern in
  match value with
  | None => Raise AttributeError
  | Some value =>
      let value := lower value in
      Return (false (* value is None *)
              || String.eqb pattern value
              || startswith pattern (value +:+ ";"))
  end.

(** The [for v in value: if self._matches(v, spec): return v] loop. *)
Fixpoint match_list (value : list string) (spec : option string)
  : outcome (option string) :=
  match value with
  | [] => Return None
  | v :: rest =>
      obind (_matches v spec) (fun b =>
        if b then Return (Some v) else match_list rest spec)
  end.

(** [match(key, spec=None)] *)
Definition match_ (self : t) (key : string) (spec : option string)
  : outcome (option string) :=
  let key := _key key in
  match self !! key with
  | Some (Multi value) => match_list value spec
  | Some (Single value) =>
      obind (_matches value spec) (fun b =>
        if b then Return (Some value) else Return None)
  | None => Return None
  end.

(** The values stored under a name, in arrival order. *)
Definition values_of (v : hval) : list string :=
  match v with
  | Single s => [s]
  | Multi l => l
  end.

Definition stored (self : t) (key : string) : list string :=
  match self !! key with
  | Some v => values_of v
  | None => []
  end.

(** No name holds an empty list ([add] only ever builds lists of two or more). *)
Definition no_empty_list (self : t) : bool :=
  bool_decide (map_Forall (fun _ v => v ≠ Multi []) self).

(** The HeaderDicts the sources can build: [HeaderDict()] followed by [add]
    (request headers) or by plain assignment (reply headers). *)
Inductive built : t -> Prop :=
  | built_empty : built ∅
  | built_add key value self : built self -> built (add key value self)
  | built_setitem key value self : built self -> built (setitem key value self).

(** The "semicolon-prefix or exact" rule in the words of the specification:
    the stored value equals the spec case-insensitively, or its lower-cased
    text starts with the lower-cased spec followed by [;]. *)
Definition semicolon_prefix_or_exact (v spec : string) : Prop :=
  lower v = lower spec ∨ ∃ rest, lower v = (lower spec +:+ ";") +:+ rest.

End HeaderDict.


(** ** The asyn frame: contexts, scan rule sets, filters *)

Module Asyn.

(** Errors that travel through callouts. *)
Inductive Error :=
  | OSError (msg : string)
  | ExpatError (msg : string)
  | StatusError (n_status v_status : option string)
  | SpyError (msg : string).

(** The two [asyn.scan.Regex] rule sets of the sources: [Request._scan_headers]
    and [SecuritySpy._SCAN_EVENT_TAP]. A scanner holds one of them or [None]
    (raw delivery). *)
Inductive RuleSet := ScanHeaders | ScanEventTap.

#[export] Instance RuleSet_eq_dec : EqDecision RuleSet.
Proof. solve_decision. Defined.

(** The filter classes the sources insert (their optional imports at the
    top of [asyn/http.py] are taken to have succeeded). *)
Inductive Filter := SSL | ChunkedCoder | GZipCoder.

#[export] Instance Filter_eq_dec : EqDecision Filter.
Proof. solve_decision. Defined.

(** An object reference: the index of the object in its store. *)
Abbreviation loc := nat.

(** The values passed as callout arguments. *)
Inductive Value :=
  | VNone
  | VStr (s : string)
  | VBytes (b : list Byte.byte)
  | VInt (z : Z)
  | VRef (l : loc)                      (* a Camera object *)
  | VHeaders (h : HeaderDict.t)         (* a HeaderDict *)
  | VCameras (d : list (Z * loc))       (* the camera dict, in insertion order *)
  | VSet (s : gset string)
  | VCounts (m : gmap string Z).

(** The context object handed to every callout: the code reads [ctx.error],
    [ctx.state] and [ctx.scan], and the event tap adds [spy_ts], [spy_seq]. *)
Record Context := {
  error : option Error;
  state : string;
  scan : option RuleSet;
  spy_ts : option Value;
  spy_seq : option Z;
}.

(** [callout('name', ...)]: a plain state name stands for a context in that state. *)
Definition in_state (s : string) : Context :=
  {| error := None; state := s; scan := None; spy_ts := None; spy_seq := None |}.

(** [callout_error(e)] and [callout(e)] for an exception [e]. *)
Definition in_error (e : Error) : Context :=
  {| error := Some e; state := "ERROR"; scan := None; spy_ts := None; spy_seq := None |}.

Definition set_spy (ts : Value) (seq : Z) (ctx : Context) : Context :=
  {| error := error ctx; state := state ctx; scan := scan ctx;
     spy_ts := Some ts; spy_seq := Some seq |}.

(** [args[i]] *)
Definition arg (args : list Value) (i : nat) : outcome Value :=
  match args !! i with
  | Some v => Return v
  | None => Raise IndexError
  end.

(** [int(v)] *)
Definition int_value (v : Value) : outcome Z :=
  match v with
  | VStr s => Py.int s
  | VInt z => Return z
  | _ => Raise TypeError
  end.

End Asyn.

(** ** asyn/http.py: Request, the reply side *)

Module Http.
Import Asyn.

Record Request := {
  url : string;
  h_reply : HeaderDict.t;
  body_reply : option (list Byte.byte);
  p_version : option string;
  n_status : option string;
  v_status : option string;
  scan : option RuleSet;         (* the scanner's active rule set *)
  filters : list Filter;         (* from the connection to [incoming] *)
  closed : bool;
  callouts : list (Context * list Value);
}.

(** [Request.__init__] followed by [_sendRequest]'s [scan = _scan_headers]. *)
Definition new (url : string) : Request :=
  {| url := url; h_reply := ∅; body_reply := None;
     p_version := None; n_status := None; v_status := None;
     scan := Some ScanHeaders; filters := []; closed := false; callouts := [] |}.

Definition set_h_reply (h : HeaderDict.t) (r : Request) : Request :=
  {| url := url r; h_reply := h; body_reply := body_reply r;
     p_version := p_version r; n_status := n_status r; v_status := v_status r;
     scan := scan r; filters := filters r; closed := closed r; callouts := callouts r |}.

Definition set_body_reply (b : option (list Byte.byte)) (r : Request) : Request :=
  {| url := url r; h_reply := h_reply r; body_reply := b;
     p_version := p_version r; n_status := n_status r; v_status := v_status r;
     scan := scan r; filters := filters r; closed := closed r; callouts := callouts r |}.

Definition set_status (p n v : option string) (r : Request) : Request :=
  {| url := url r; h_reply := h_reply r; body_reply := body_reply r;
     p_version := p; n_status := n; v_status := v;
     scan := scan r; filters := filters r; closed := closed r; callouts := callouts r |}.

Definition set_scan (s : option RuleSet) (r : Request) : Request :=
  {| url := url r; h_reply := h_reply r; body_reply := body_reply r;
     p_version := p_version r; n_status := n_status r; v_status := v_status r;
     scan := s; filters := filters r; closed := closed r; callouts := callouts r |}.

Definition set_filters (f : list Filter) (r : Request) : Request :=
  {| url := url r; h_reply := h_reply r; body_reply := body_reply r;
     p_version := p_version r; n_status := n_status r; v_status := v_status r;
     scan := scan r; filters := f; closed := closed r; callouts := callouts r |}.

(** [close()] *)
Definition close (r : Request) : Request :=
  {| url := url r; h_reply := h_reply r; body_reply := body_reply r;
     p_version := p_version r; n_status := n_status r; v_status := v_status r;
     scan := scan r; filters := filters r; closed := true; callouts := callouts r |}.

(** Modelled from the spec: [callout(ctx, *args)] of [asyn.Callable], not
    among the sources: the request's notifications, recorded in order. *)
Definition callout (ctx : Context) (args : list Value) (r : Request) : Request :=
  {| url := url r; h_reply := h_reply r; body_reply := body_reply r;
     p_version := p_version r; n_status := n_status r; v_status := v_status r;
     scan := scan r; filters := filters r; closed := closed r;
     callouts := callouts r ++ [(ctx, args)] |}.

(** Modelled from the spec: [insert_filter(cls, uplink=self.incoming, ...)]
    of the asyn frame is not among the sources; by the Filter Pipeline
    contract it puts the new stage immediately upstream of the named sink.
    The sink is always [incoming], the consumer end of [filters]. *)
Definition insert_filter (f : Filter) (r : Request) : Request :=
  set_filters (filters r ++ [f]) r.

(** Modelled from the spec: the data path of the Filter Pipeline, which is
    not among the sources: stage i's output is stage i+1's input, so bytes
    from the connection pass the stages of [filters] in order. *)
Definition through (transform : Filter -> list Byte.byte -> list Byte.byte)
    (fs : list Filter) (data : list Byte.byte) : list Byte.byte :=
  fold_left (fun d f => transform f d) fs data.

(** A header match used as a condition: [if self.h_reply.match(...)]. *)
Definition matches (h : HeaderDict.t) (key spec : string) : outcome bool :=
  obind (HeaderDict.match_ h key (Some spec)) (fun v => Return (truthy v)).

(** [_prepare_body] *)
Definition _prepare_body (self : Request) : outcome unit * Request :=
  let self := set_scan None self in
  let self := set_body_reply (Some []) self in
  match matches (h_reply self) "Transfer-Encoding" "chunked" with
  | Raise e => (Raise e, self)
  | Return te =>
      let self := if te then insert_filter ChunkedCoder self else self in
      match matches (h_reply self) "Content-Encoding" "gzip" with
      | Raise e => (Raise e, self)
      | Return ce =>
          let self := if ce then insert_filter GZipCoder self else self in
          (Return tt, self)
      end
  end.

(** [incoming(ctx, *args)] *)
Definition incoming (ctx : Context) (args : list Value) (self : Request)
  : outcome unit * Request :=
  if bool_decide (is_Some (error ctx)) then
    (Return tt, callout ctx [] self)
  else if String.eqb (state ctx) "END" then
    let self := close self in
    match body_reply self with
    | None => (Return tt, callout ctx [] self)         (* unexpected END in headers *)
    | Some body => (Return tt, callout (in_state "body") [VBytes body] self)
    end
  else if String.eqb (state ctx) "status" then
    match args with
    | [VStr p; VStr n; VStr v] =>
        let self := set_status (Some p) (Some n) (Some v) self in
        (Return tt, callout ctx [VStr n] self)
    | [_; _; _] => (Raise TypeError, self)
    | _ => (Raise ValueError, self)
    end
  else if String.eqb (state ctx) "header" then
    match args with
    | [VStr key; VStr value] =>
        (Return tt, set_h_reply (HeaderDict.setitem key value (h_reply self)) self)
    | [_; _] => (Raise TypeError, self)
    | _ => (Raise ValueError, self)
    end
  else if String.eqb (state ctx) "end-headers" then
    match _prepare_body self with
    | (Raise e, self) => (Raise e, self)
    | (Return _, self) =>
        (Return tt, callout (in_state "headers") [VHeaders (h_reply self)] self)
    end
  else if String.eqb (state ctx) "RAW" && bool_decide (scan self = None) then
    match arg args 0, body_reply self with
    | Return (VBytes b), Some body => (Return tt, set_body_reply (Some (body ++ b)) self)
    | Return _, _ => (Raise TypeError, self)
    | Raise e, _ => (Raise e, self)
    end
  else
    (* FilterCallable.incoming: whatever the request does not handle itself
       goes on to its callout *)
    (Return tt, callout ctx args self).

(** Delivering a sequence of scanner events, stopping at the first raise. *)
Fixpoint deliver (evs : list (Context * list Value)) (self : Request)
  : outcome unit * Request :=
  match evs with
  | [] => (Return tt, self)
  | (ctx, args) :: rest =>
      match incoming ctx args self with
      | (Return _, self) => deliver rest self
      | (Raise e, self) => (Raise e, self)
      end
  end.

(** The scanner event of one reply header line. *)
Definition header_line (name value : string) : Context * list Value :=
  ({| error := None; state := "header"; Asyn.scan := Some ScanHeaders;
      spy_ts := None; spy_seq := None |}, [VStr name; VStr value]).

End Http.

(** ** Python dicts whose iteration order matters *)

Module ODict.

(** Items in insertion order; keys are kept distinct by [set] and [del]. *)
Abbreviation t V := (list (Z * V)).

Section Ops.
Context {V : Type}.

Definition keys (d : t V) : list Z := d.*1.

(** [d.get(k)] *)
Fixpoint get (k : Z) (d : t V) : option V :=
  match d with
  | [] => None
  | (k', v) :: rest => if bool_decide (k' = k) then Some v else get k rest
  end.

(** [k in d] *)
Definition mem (k : Z) (d : t V) : bool :=
  match get k d with Some _ => true | None => false end.

(** [d[k] = v]: an existing key keeps its place, a new key goes last. *)
Fixpoint set (k : Z) (v : V) (d : t V) : t V :=
  match d with
  | [] => [(k, v)]
  | (k', v') :: rest =>
      if bool_decide (k' = k) then (k', v) :: rest else (k', v') :: set k v rest
  end.

Fixpoint remove (k : Z) (d : t V) : t V :=
  match d with
  | [] => []
  | (k', v') :: rest =>
      if bool_decide (k' = k) then rest else (k', v') :: remove k rest
  end.

(** [del d[k]]: KeyError when the key is absent. *)
Definition del (k : Z) (d : t V) : outcome (t V) :=
  if mem k d then Return (remove k d) else Raise KeyError.

End Ops.
End ODict.

(** ** spy/core.py *)

Module Core.
Import Asyn.

Definition ARM_MOTION : string := "MotionCapture".
Definition ARM_CONTINUOUS : string := "ContinuousCapture".
Definition ARM_ACTIONS : string := "Actions".

Definition ARM_REPORTS : gmap string string :=
  list_to_map [("M", ARM_MOTION); ("C", ARM_CONTINUOUS); ("A", ARM_ACTIONS)].

Definition TRIGGER_TYPES : gmap string string :=
  list_to_map [("M", "recording"); ("A", "action")].

(** The dict literal, in its insertion (= iteration) order. *)
Definition MOTION_CODES : list (Z * string) :=
  [ (1, "motion"); (2, "audio"); (4, "applescript"); (8, "camera"); (16, "web");
    (32, "crosscamera"); (64, "manual"); (128, "human"); (256, "vehicle") ].

(** [[MOTION_CODES[code] for code in MOTION_CODES.keys() if code & codes]] *)
Definition motion_names (codes : Z) : list string :=
  omap (fun code =>
          if bool_decide (Z.land code codes ≠ 0) then ODict.get code MOTION_CODES
          else None)
       (ODict.keys MOTION_CODES).

(** [motions(codes)]: [set(names or ["motion"])] *)
Definition motions (codes : Z) : gset string :=
  list_to_set (match motion_names codes with
               | [] => ["motion"]
               | names => names
               end).

(** Python's whitespace for [str.split()]. *)
Definition is_space (c : ascii) : bool :=
  let n := N_of_ascii c in
  ((n =? 32) || ((9 <=? n) && (n <=? 13)) || ((28 <=? n) && (n <=? 31)))%N.

(** [form.split()]: the maximal runs of non-whitespace. [cur] is the run
    being read, reversed. *)
Fixpoint words_from (cur : option string) (s : string) : list string :=
  match s with
  | EmptyString => match cur with Some w => [w] | None => [] end
  | String c s' =>
      if is_space c then
        match cur with Some w => w :: words_from None s' | None => words_from None s' end
      else
        words_from (Some (match cur with Some w => w +:+ String c EmptyString
                                    | None => String c EmptyString end)) s'
  end.

(** [classify(form)]: [{key.lower(): int(value) for (key, value) in zip(s[0::2], s[1::2])}] *)
Fixpoint classify_pairs (s : list string) (acc : gmap string Z) : outcome (gmap string Z) :=
  match s with
  | key :: value :: rest =>
      obind (Py.int value) (fun z => classify_pairs rest (<[lower key := z]> acc))
  | _ => Return acc
  end.

Definition classify (form : string) : outcome (gmap string Z) :=
  classify_pairs (words_from None form) ∅.

(** A Camera object, with the attributes [Camera.__init__] reads off one
    [<camera>] element of the [++systemInfo] document ([spy] is the one
    SecuritySpy object of the [World]). *)
Record Camera := {
  number : Z;
  name : option string;
  connected : bool;
  size : option Z * option Z;
  armed : gmap string bool;
  classifications : gmap string Z;
  audio : bool;
  device : option string;
  ptz_capabilities : option Z;
  sensitivity : option Z;
  type_ : option string;
  location : option (option string * option Z);
}.

Definition set_armed (a : gmap string bool) (c : Camera) : Camera :=
  {| number := number c; name := name c; connected := connected c; size := size c;
     armed := a; classifications := classifications c; audio := audio c;
     device := device c; ptz_capabilities := ptz_capabilities c;
     sensitivity := sensitivity c; type_ := type_ c; location := location c |}.

Definition set_connected (b : bool) (c : Camera) : Camera :=
  {| number := number c; name := name c; connected := b; size := size c;
     armed := armed c; classifications := classifications c; audio := audio c;
     device := device c; ptz_capabilities := ptz_capabilities c;
     sensitivity := sensitivity c; type_ := type_ c; location := location c |}.

Definition set_classifications (m : gmap string Z) (c : Camera) : Camera :=
  {| number := number c; name := name c; connected := connected c; size := size c;
     armed := armed c; classifications := m; audio := audio c;
     device := device c; ptz_capabilities := ptz_capabilities c;
     sensitivity := sensitivity c; type_ := type_ c; location := location c |}.

(** The five assignments of [_refresh]. *)
Definition merge (self update : Camera) : Camera :=
  {| number := number self; name := name update; connected := connected update;
     size := size update; armed := armed update;
     classifications := classifications self; audio := audio self;
     device := device self; ptz_capabilities := ptz_capabilities self;
     sensitivity := sensitivity update; type_ := type_ self;
     location := location self |}.

(** The change flag of [_refresh]. *)
Definition changed (self update : Camera) : bool :=
  bool_decide (armed self ≠ armed update)
  || bool_decide (connected self ≠ connected update)
  || bool_decide (sensitivity self ≠ sensitivity update).

(** Who makes a callout: the SecuritySpy object or one Camera object. *)
Inductive Source := OnSpy | OnCamera (camera : loc).

Record Callout := { source : Source; ctx : Context; args : list Value }.

(** The parsed [++systemInfo] document: [ET.fromstring] either raises
    ExpatError or yields the server entry and the camera elements, each
    given as the Camera that [Camera(elem, self)] builds from it. *)
Inductive SystemInfo :=
  | Malformed (msg : string)
  | Document (server_name server_version : option string) (cameralist : list Camera).

Record World := {
  heap : list Camera;                 (* every Camera object built so far *)
  cameras : ODict.t loc;              (* [self.cameras] *)
  requests : list Http.Request;       (* every Request made so far *)
  _events : option loc;               (* [self._events] *)
  server : option string;
  version : option string;
  log : list Callout;                 (* callouts, in the order made *)
}.

(** [SecuritySpy.__init__] and [open]: no cameras, no event tap. *)
Definition initial : World :=
  {| heap := []; cameras := []; requests := []; _events := None;
     server := None; version := None; log := [] |}.

Definition set_heap (h : list Camera) (w : World) : World :=
  {| heap := h; cameras := cameras w; requests := requests w; _events := _events w;
     server := server w; version := version w; log := log w |}.

Definition set_cameras (d : ODict.t loc) (w : World) : World :=
  {| heap := heap w; cameras := d; requests := requests w; _events := _events w;
     server := server w; version := version w; log := log w |}.

Definition set_requests (r : list Http.Request) (w : World) : World :=
  {| heap := heap w; cameras := cameras w; requests := r; _events := _events w;
     server := server w; version := version w; log := log w |}.

Definition set_events (e : option loc) (w : World) : World :=
  {| heap := heap w; cameras := cameras w; requests := requests w; _events := e;
     server := server w; version := version w; log := log w |}.

Definition set_server (s v : option string) (w : World) : World :=
  {| heap := heap w; cameras := cameras w; requests := requests w; _events := _events w;
     server := s; version := v; log := log w |}.

Definition set_log (l : list Callout) (w : World) : World :=
  {| heap := heap w; cameras := cameras w; requests := requests w; _events := _events w;
     server := server w; version := version w; log := l |}.

(** *** The monad of code that mutates the world and may raise *)

Definition M (A : Type) : Type := World -> outcome A * World.

Definition ret {A} (a : A) : M A := fun w => (Return a, w).

Definition bind {A B} (m : M A) (k : A -> M B) : M B :=
  fun w => match m w with
           | (Return a, w') => k a w'
           | (Raise e, w') => (Raise e, w')
           end.

Definition lift {A} (o : outcome A) : M A := fun w => (o, w).

Definition gets {A} (f : World -> A) : M A := fun w => (Return (f w), w).

Definition modify (f : World -> World) : M unit := fun w => (Return tt, f w).

Declare Scope py_scope.
Delimit Scope py_scope with py.
Notation "x <- m ;; k" := (bind m (fun x => k))
  (at level 100, m at next level, right associativity) : py_scope.
Notation "m ;; k" := (bind m (fun _ => k))
  (at level 100, right associativity) : py_scope.
Local Open Scope py_scope.

(** Modelled from the spec: [asyn.Callable.callout] is not among the
    sources; notifications go out through the one callout channel, in the
    order made, which [log] records. *)
Definition callout (src : Source) (c : Context) (a : list Value) : M unit :=
  modify (fun w => set_log (log w ++ [{| source := src; ctx := c; args := a |}]) w).

(** Attribute access on a Camera object. A reference always denotes an
    object in Python; the [TypeError] branch is there for totality only. *)
Definition deref (l : loc) : M Camera :=
  fun w => match heap w !! l with
           | Some c => (Return c, w)
           | None => (Raise TypeError, w)
           end.

Definition assign (l : loc) (f : Camera -> Camera) : M unit :=
  c <- deref l ;; modify (fun w => set_heap (<[l := f c]> (heap w)) w).

(** [Camera(elem, self)]: a new object. *)
Definition new_camera (c : Camera) : M loc :=
  fun w => (Return (length (heap w)), set_heap (heap w ++ [c]) w).

(** [_request(path, callout=...)]: a new Request, already on its way. *)
Definition _request (path : string) : M loc :=
  fun w => (Return (length (requests w)), set_requests (requests w ++ [Http.new path]) w).

Definition with_request (r : loc) (f : Http.Request -> Http.Request) : M unit :=
  modify (fun w => set_requests (alter f r (requests w)) w).

(** [update]: fetch the configuration; the reply ends in [_configure]. *)
Definition update : M unit :=
  _ <- _request "/++systemInfo" ;; ret tt.

(** [_fetch_list(name)] *)
Definition _fetch_list (name : string) : M unit :=
  _ <- _request ("/++" +:+ name) ;; ret tt.

(** [_close_events] *)
Definition _close_events : M unit :=
  e <- gets _events ;;
  match e with
  | Some r => with_request r Http.close ;; modify (set_events None)
  | None => ret tt
  end.

(** [_event_stream]: [self._events = req = self._request(...)]; the closure
    [reply] of that call is [reply req] below. *)
Definition _event_stream : M unit :=
  req <- _request "/++eventStream?version=2" ;;
  modify (set_events (Some req)).

(** [Camera._refresh(update)] *)
Definition _refresh (self update : loc) : M unit :=
  s <- deref self ;;
  u <- deref update ;;
  let change := changed s u in
  assign self (fun s => merge s u) ;;
  if change then callout (OnCamera self) (in_state "status") [] else ret tt.

(** [ARM_REPORTS[key]] and [TRIGGER_TYPES[key]] *)
Definition subscript (d : gmap string string) (key : Value) : outcome string :=
  match key with
  | VStr k => match d !! k with Some v => Return v | None => Raise KeyError end
  | _ => Raise KeyError
  end.

(** [Camera._event_tap(ctx, *args)] *)
Definition _event_tap (self : loc) (c : Context) (a : list Value) : M unit :=
  let set_arm key value :=
    assign self (fun s => set_armed (<[key := value]> (armed s)) s) in
  let finish := callout (OnCamera self) c a in
  if String.eqb (state c) "active" then set_arm ARM_MOTION true ;; finish
  else if String.eqb (state c) "passive" then set_arm ARM_MOTION false ;; finish
  else if String.eqb (state c) "arm" then
    a0 <- lift (arg a 0) ;; key <- lift (subscript ARM_REPORTS a0) ;;
    set_arm key true ;; finish
  else if String.eqb (state c) "disarm" then
    a0 <- lift (arg a 0) ;; key <- lift (subscript ARM_REPORTS a0) ;;
    set_arm key false ;; finish
  else if String.eqb (state c) "classify" then
    a0 <- lift (arg a 0) ;;
    m <- lift (match a0 with VStr form => classify form | _ => Raise AttributeError end) ;;
    assign self (set_classifications m) ;;
    callout (OnCamera self) (in_state "classify") [VCounts m]
  else if String.eqb (state c) "trigger" then
    match a with
    | [type; reasons] =>
        t <- lift (subscript TRIGGER_TYPES type) ;;
        codes <- lift (int_value reasons) ;;
        callout (OnCamera self) (in_state "trigger") [VStr t; VSet (motions codes)]
    | _ => lift (Raise ValueError)
    end
  else if String.eqb (state c) "online" then
    assign self (set_connected true) ;; finish
  else if String.eqb (state c) "offline" then
    update ;; assign self (set_connected false) ;; finish
  else finish.

(** The closure [reply(ctx, *args)] of [_event_stream], for the request
    [req] that call made. *)
Definition reply (req : loc) (c : Context) (a : list Value) : M unit :=
  if bool_decide (is_Some (error c)) then
    _close_events ;; callout OnSpy c []
  else if String.eqb (state c) "headers" then
    r <- gets (fun w => requests w !! req) ;;
    let n_status := r ≫= Http.n_status in
    let v_status := r ≫= Http.v_status in
    callout OnSpy (in_state "event tap")
            [match n_status with Some n => VStr n | None => VNone end] ;;
    if bool_decide (n_status = Some "200") then
      with_request req (Http.set_scan (Some ScanEventTap))
    else
      _close_events ;; callout OnSpy (in_error (StatusError n_status v_status)) []
  else if String.eqb (state c) "body" then
    (* http signals end of body - restart the tap *)
    _close_events ;; _event_stream
  else if bool_decide (scan c = Some ScanEventTap) then
    if String.eqb (state c) "unknown" then
      match a with
      | [VStr line] =>
          callout OnSpy (in_error (SpyError ("unknown event tap (" +:+ line +:+ ")"))) []
      | _ => lift (Raise TypeError)    (* the format has one [%s] *)
      end
    else if String.eqb (state c) "change" then
      update
    else
      ts <- lift (arg a 0) ;;
      a1 <- lift (arg a 1) ;; seq <- lift (int_value a1) ;;
      a2 <- lift (arg a 2) ;; cnum <- lift (int_value a2) ;;
      let c := set_spy ts seq c in
      cams <- gets cameras ;;
      match ODict.get cnum cams with
      | None => update                  (* can't handle now; trigger config update *)
      | Some camera => _event_tap camera c (drop 3 a)
      end
  else ret tt.

(** The first loop of [_configure]: [for elem in system.find('cameralist')].
    [old_cameras] is the check-off copy. *)
Fixpoint configure_cameras (cameralist : list Camera) (old_cameras : ODict.t loc)
  : M (ODict.t loc) :=
  match cameralist with
  | [] => ret old_cameras
  | elem :: rest =>
      camera <- new_camera elem ;;
      cams <- gets cameras ;;
      match ODict.get (number elem) cams with
      | Some existing =>
          _refresh existing camera ;;
          old_cameras <- lift (ODict.del (number elem) old_cameras) ;;
          configure_cameras rest old_cameras
      | None =>
          modify (fun w => set_cameras (ODict.set (number elem) camera (cameras w)) w) ;;
          callout OnSpy (in_state "added") [VRef camera] ;;
          configure_cameras rest old_cameras
      end
  end.

(** The second loop: [for cnum in old_cameras]. *)
Fixpoint remove_cameras (old_cameras : ODict.t loc) : M unit :=
  match old_cameras with
  | [] => ret tt
  | (cnum, camera) :: rest =>
      callout (OnCamera camera) (in_state "removed") [] ;;
      cams <- gets cameras ;;
      cams <- lift (ODict.del cnum cams) ;;
      modify (set_cameras cams) ;;
      remove_cameras rest
  end.

(** The block [# update camera set] of [_configure], up to the final
    ['ready'] callout. *)
Definition update_camera_set (cameralist : list Camera) : M unit :=
  old_cameras <- gets cameras ;;                 (* check-off copy *)
  old_cameras <- configure_cameras cameralist old_cameras ;;
  remove_cameras old_cameras ;;
  cams <- gets cameras ;;
  callout OnSpy (in_state "ready") [VCameras cams].

(** [_configure(system_info)] *)
Definition _configure (system_info : SystemInfo) : M unit :=
  match system_info with
  | Malformed msg => callout OnSpy (in_error (ExpatError msg)) []
  | Document server_name server_version cameralist =>
      modify (set_server server_name server_version) ;;
      e <- gets _events ;;
      (match e with
       | Some _ => ret tt
       | None => _event_stream ;; _fetch_list "scripts" ;; _fetch_list "sounds"
       end) ;;
      update_camera_set cameralist
  end.

(** *** Vocabulary of the statements below *)

(** The four notifications of reconciliation. *)
Definition added (camera : loc) : Callout :=
  {| source := OnSpy; ctx := in_state "added"; args := [VRef camera] |}.
Definition removed (camera : loc) : Callout :=
  {| source := OnCamera camera; ctx := in_state "removed"; args := [] |}.
Definition status (camera : loc) : Callout :=
  {| source := OnCamera camera; ctx := in_state "status"; args := [] |}.
Definition ready (cams : ODict.t loc) : Callout :=
  {| source := OnSpy; ctx := in_state "ready"; args := [VCameras cams] |}.

(** The world after one turn of the first loop of [_configure], for an
    element whose number is known (camera [l], holding [c0]) ... *)
Definition refreshed (elem : Camera) (l : loc) (c0 : Camera) (w : World) : World :=
  set_log (log w ++ (if changed c0 elem then [status l] else []))
    (set_heap (<[l := merge c0 elem]> (heap w ++ [elem])) w).

(** ... and for an element whose number is new. *)
Definition inserted (elem : Camera) (w : World) : World :=
  set_log (log w ++ [added (length (heap w))])
    (set_cameras (cameras w ++ [(number elem, length (heap w))])
       (set_heap (heap w ++ [elem]) w)).

(** The context of a record matched by [_SCAN_EVENT_TAP]. *)
Definition tap_record (label : string) : Context :=
  {| error := None; state := label; scan := Some ScanEventTap;
     spy_ts := None; spy_seq := None |}.

(** The labels of the [_SCAN_EVENT_TAP] rules that capture a camera number
    ([(?:CAM)?(\d+)] as third group). *)
Definition camera_record_states : list string :=
  ["motion"; "trigger"; "classify"; "online"; "offline"; "error";
   "active"; "passive"; "arm"; "disarm"].

(** In the words of the specification: [name] is a reason whose code bit is
    set in the bitmask. *)
Definition named_by_bits (codes : Z) (name : string) : Prop :=
  ∃ code, (code, name) ∈ MOTION_CODES ∧ Z.land code codes ≠ 0.

(** In the words of the specification: the tap was re-established from
    scratch, by a new request that is now the live one. *)
Definition reestablished (w w' : World) : Prop :=
  _events w' = Some (length (requests w)) ∧
  requests w' !! length (requests w) = Some (Http.new "/++eventStream?version=2").

(** The world after the tap [req] saw the end of its body. *)
Definition restarted (w : World) (req : loc) (rq : Http.Request) : World :=
  set_events (Some (length (requests w)))
    (set_requests (<[req := Http.close rq]> (requests w)
                   ++ [Http.new "/++eventStream?version=2"]) w).

(** The peer closes the tap's connection [n] times in a row: each time the
    request of the live tap delivers ['body'] to its [reply]. *)
Fixpoint stream_closes (n : nat) : M unit :=
  match n with
  | O => ret tt
  | S n' =>
      e <- gets _events ;;
      match e with
      | Some req => reply req (in_state "body") [VBytes []] ;; stream_closes n'
      | None => ret tt
      end
  end.

(** Every camera of the map is a live object stored under its own number,
    and no number is listed twice. *)
Definition wf (w : World) : bool :=
  bool_decide (NoDup (ODict.keys (cameras w))) &&
  forallb (fun '(n, l) => match heap w !! l with
                          | Some c => bool_decide (number c = n)
                          | None => false
                          end) (cameras w).



Definition example_camera (n : Z) (nm : string) (sens : Z) : Camera :=
  {| number := n; name := Some nm; connected := true; size := (Some 640, Some 480);
     armed := list_to_map [(ARM_MOTION, true); (ARM_CONTINUOUS, false); (ARM_ACTIONS, false)];
     classifications := ∅; audio := false; device := None;
     ptz_capabilities := Some 0; sensitivity := Some sens; type_ := Some "Network";
     location := None |}.

(** One camera, number 3, and a live event tap (request 1). *)
Definition tap_world : World :=
  {| heap := [example_camera 3 "Porch" 50]; cameras := [(3, 0%nat)];
     requests := [Http.new "/++systemInfo"; Http.new "/++eventStream?version=2"];
     _events := Some 1%nat; server := Some "spy"; version := Some "5.0"; log := [] |}.

(** The live set {1, 2, 3} and the snapshot {2, 3, 4} of the specification's
    example; camera 3 comes back with another sensitivity. *)
Definition live_123 : World :=
  {| heap := [example_camera 1 "Gate" 50; example_camera 2 "Garage" 50;
              example_camera 3 "Porch" 50];
     cameras := [(1, 0%nat); (2, 1%nat); (3, 2%nat)];
     requests := [Http.new "/++systemInfo"; Http.new "/++eventStream?version=2"];
     _events := Some 1%nat; server := Some "spy"; version := Some "5.0"; log := [] |}.

Definition snapshot_234 : list Camera :=
  [example_camera 2 "Garage" 50; example_camera 3 "Porch" 70; example_camera 4 "Yard" 50].

End Core.

(** ** The scanner events of one reply, as [Request._scan_headers] and the
    raw mode deliver them to [Request.incoming] *)

Module Wire.
Import Asyn.

Definition scanned (label : string) : Context :=
  {| error := None; state := label; scan := Some ScanHeaders;
     spy_ts := None; spy_seq := None |}.

(** The status reply line: version, status code, reason. *)
Definition status_line (p n v : string) : Context * list Value :=
  (scanned "status", [VStr p; VStr n; VStr v]).

(** The blank line that ends the headers. *)
Definition end_headers : Context * list Value := (scanned "end-headers", []).

(** A chunk of body bytes, delivered raw once the rule set is cleared. *)
Definition raw (b : list Byte.byte) : Context * list Value :=
  (in_state "RAW", [VBytes b]).

(** The connection was closed by the peer. *)
Definition end_of_stream : Context * list Value := (in_state "END", []).

End Wire.

(** ** spy/core.py, continued: lookups and what an operation leaves alone *)

Module More.
Import Asyn Core.

(** What Python raises in the code below: the exceptions of [Py.exn], and
    NameError for a name that no module defines. *)
Inductive failure :=
  | Exn (e : exn)
  | NameError (name : string).

(** [find_camera(ident)]: by number ([int]) or by name. The name branch
    tests [isinstance(ident, basestring)], and [basestring] is not a name
    of Python 3. *)
Definition find_camera (ident : Z + string) (w : World) : failure + option loc :=
  match ident with
  | inl number => inr (ODict.get number (cameras w))
  | inr _ => inl (NameError "basestring")
  end.

(** [m] leaves the part [f] of the world as it was, whether it returns or raises. *)
Definition frames {A X} (f : World -> X) (m : M A) : Prop :=
  forall w, f (m w).2 = f w.

End More.

(** ** plugin.py: what the plugin reads off the core objects *)

Module Plugin.
Import Core.

(** [Camera._state]: [spy_camera] is the core Camera object, or None. *)
Definition _state (spy_camera : option Camera) : outcome string :=
  match spy_camera with
  | None => Return "error"
  | Some cam =>
      if connected cam then
        match armed cam !! ARM_MOTION with
        | Some true => Return "active"
        | Some false => Return "passive"
        | None => Raise KeyError
        end
      else Return "disconnected"
  end.

(** What a trigger is offered after the type: the reason set of
    [motions], the list [['motion']] of the pre-5 motion report, or the
    dict of [classify]. *)
Inductive MatchArg :=
  | Reasons (reasons : gset string)
  | ReasonList (reasons : list string)
  | Recognized (strengths : gmap string Z).

(** [x not in reasons], on a set, a list or a dict. *)
Definition not_in (x : string) (reasons : MatchArg) : bool :=
  match reasons with
  | Reasons s => bool_decide (x ∉ s)
  | ReasonList l => bool_decide (x ∉ l)
  | Recognized m => bool_decide (m !! x = None)
  end.

Section CameraMotion.
(** Clock readings of [time.time()] are kept abstract: a type [T] of
    readings, [is_zero] for the reading that counts as false, and
    [too_soon last throttle now] for [last + throttle > now]. *)
Context {T : Type} (is_zero : T -> bool) (too_soon : T -> Z -> T -> bool).

(** The properties of a [CameraMotion] trigger; [camera] is the configured
    camera device (its id), [last_motion] the throttle mark. *)
Record CameraMotion := {
  camera : option Z;
  throttle : Z;
  type : string;
  trigger_reason : option string;
  recognition_type : string;
  recognition_threshold : Z;
  recognition_negate : bool;
  last_motion : option T;
}.

Definition set_last_motion (t : option T) (self : CameraMotion) : CameraMotion :=
  {| camera := camera self; throttle := throttle self; type := type self;
     trigger_reason := trigger_reason self; recognition_type := recognition_type self;
     recognition_threshold := recognition_threshold self;
     recognition_negate := recognition_negate self; last_motion := t |}.

(** The part of [matches] from [now = time.time()] on. *)
Definition throttled (self : CameraMotion) (now : T) : outcome bool * CameraMotion :=
  match last_motion self with
  | Some last =>
      if negb (is_zero last) && too_soon last (throttle self) now
      then (Return false, self)               (* too close since last motion *)
      else (Return true, set_last_motion (Some now) self)
  | None => (Return true, set_last_motion (Some now) self)
  end.

(** [CameraMotion.matches(camera, type, *args)], reading the clock as [now]. *)
Definition matches (self : CameraMotion) (cam : Z) (ty : string) (args : list MatchArg)
    (now : T) : outcome bool * CameraMotion :=
  if match camera self with Some c => bool_decide (c ≠ cam) | None => false end then
    (Return false, self)
  else if negb (String.eqb (type self) ty) then
    (Return false, self)
  else if String.eqb ty "recording" || String.eqb ty "action" then
    match args with
    | [] => (Raise IndexError, self)
    | reasons :: _ =>
        if match trigger_reason self with
           | Some r => negb (String.eqb r "") && negb (String.eqb r "any") && not_in r reasons
           | None => false
           end
        then (Return false, self)
        else throttled self now
    end
  else if String.eqb ty "raw" then
    match args with
    | [recognized] =>
        if negb (String.eqb (recognition_type self) "raw") then
          match recognized with
          | Recognized strengths =>
              let strength := default 0 (strengths !! recognition_type self) in
              let accept := bool_decide (recognition_threshold self ≤ strength) in
              if Bool.eqb accept (recognition_negate self) then (Return false, self)
              else throttled self now
          | _ => (Raise AttributeError, self)
          end
        else throttled self now
    | _ => (Raise ValueError, self)
    end
  else throttled self now.

End CameraMotion.

End Plugin.

(** ** spy/core.py: the requests a Camera makes, and the server version *)

Module Control.
Import Asyn Core More.

(** What [Camera._request] hands to [SecuritySpy._request]: the path, the
    action and the query dict. *)
Record Call := {
  path : string;
  action : string;
  query : gmap string Value;
}.

(** [Camera._request(req, action=..., query=...)]: the query starts as
    [{'cameraNum': self.number}] and is updated with the caller's entries. *)
Definition _request (number : Z) (req : string) (action : string)
    (query : gmap string Value) : Call :=
  {| path := req; action := action;
     query := query ∪ {[ "cameraNum" := VInt number ]} |}.

(** [1 if flag else 0] *)
Definition flag (b : bool) : Value := VInt (if b then 1 else 0).

(** [set_active(active)]; [v4] is the outcome of [self.spy.webversion >= 4]. *)
Definition set_active (number : Z) (v4 : bool) (active : bool) : failure + Call :=
  if v4 then
    inr (_request number "/++ssControlMotionCapture" "GET" {[ "arm" := flag active ]})
  else
    inr (_request number
           ("/++ssControl" +:+ (if active then "Active" else "Passive") +:+ "Mode")
           "GET" ∅).

(** [set_arm(type, armed)]; the name [error] of the other branch is not
    defined in [spy/core.py]. *)
Definition set_arm (number : Z) (v4 : bool) (type : string) (armed : bool) : failure + Call :=
  if v4 then
    inr (_request number ("/++ssControl" +:+ type) "GET" {[ "arm" := flag armed ]})
  else
    inl (NameError "error").

(** [trigger_motion()] *)
Definition trigger_motion (number : Z) : failure + Call :=
  inr (_request number "/++triggermd" "GET" ∅).

(** [set_sensitivity(level)] *)
Definition set_sensitivity (number : Z) (level : Value) : failure + Call :=
  inr (_request number "/++camerasetup" "POST"
         (<["mdSensitivityText" := level]>
            (<["action" := VStr "save"]> {[ "Submit" := VStr "Submit" ]}))).

(** [ptz_action(action)] *)
Definition ptz_action (number : Z) (command : Value) : failure + Call :=
  inr (_request number "/++ptz/command" "GET" {[ "command" := command ]}).





End Control.

(** ** asyn/http.py: request headers and the request as written *)

Module Send.
Import HeaderDict.

Definition DEFAULT_AGENT : string := "cy-asyn/1.1".

(** The request headers [Request.__init__] starts with: [gzip] says whether
    [GZipCoder] was imported, [compression] is the argument (None, True, False). *)
Definition init_headers (gzip : bool) (compression : option bool) : t :=
  if gzip && negb (bool_decide (compression = Some false))
  then add "Accept-Encoding" "gzip" ∅
  else ∅.

(** The first statement of [open]: a default User-Agent unless one is there. *)
Definition open_headers (h_request : t) : t :=
  match h_request !! "User-Agent" with
  | Some _ => h_request
  | None => add "User-Agent" DEFAULT_AGENT h_request
  end.

(** [str(n)] for a length: decimal digits, most significant first. *)
Fixpoint decimal_from (fuel n : nat) (acc : string) : string :=
  match fuel with
  | O => acc
  | S fuel' =>
      let acc' := String (ascii_of_nat (48 + n mod 10)) acc in
      if (n <? 10)%nat then acc' else decimal_from fuel' (n / 10) acc'
  end.

Definition str_of_nat (n : nat) : string := decimal_from (S n) n EmptyString.

(** What [_sendRequest] reads. [target_path], [target_query] and
    [target_fragment] are [self.urlparts]; [query] is [self._querystring()]
    when the query dict is not empty; [header_lines] are the lines of
    [self.h_request] in its order and [auth_line] the line of
    [self.auth.write_headers], both as written; [body_request] is a [str]. *)
Record Request := {
  action : string;
  target_path : string;
  target_query : string;
  target_fragment : string;
  query : option string;
  host : string;
  http_version : string;
  header_lines : list string;
  auth_line : option string;
  body_request : option string;
}.

(** [urlunsplit(('', '', path, query, fragment))] *)
Definition urlunsplit (path query fragment : string) : string :=
  let url := path in
  let url := match query with EmptyString => url | _ => url +:+ "?" +:+ query end in
  match fragment with EmptyString => url | _ => url +:+ "#" +:+ fragment end.

(** [_sendRequest]: the lines handed to [write], in order. *)
Definition _sendRequest (self : Request) : list string :=
  let uri :=
    match query self with
    | Some q => if negb (String.eqb (action self) "POST")
                then urlunsplit (target_path self) q (target_fragment self)
                else urlunsplit (target_path self) (target_query self) (target_fragment self)
    | None => urlunsplit (target_path self) (target_query self) (target_fragment self)
    end in
  [ action self +:+ " " +:+ (match uri with EmptyString => "/" | _ => uri end)
      +:+ " HTTP/" +:+ http_version self;
    "Host: " +:+ host self;
    "Connection: close" ]
  ++ header_lines self
  ++ match auth_line self with Some l => [l] | None => [] end
  ++ (if String.eqb (action self) "POST" then
        match query self with
        | Some q =>
            [ "Content-Length: " +:+ str_of_nat (String.length q);
              "Content-Type: application/x-www-form-urlencoded";
              ""; q ]
        | None =>
            match body_request self with
            | Some (String c b) =>
                [ "Content-Length: " +:+ str_of_nat (String.length (String c b));
                  ""; String c b ]
            | _ => []        (* streaming output: the writer goes on *)
            end
        end
      else [ "" ]).

(** [write(it)] for every line: each is followed by CR LF. *)
Definition written (lines : list string) : string :=
  foldr (λ it rest, it +:+ String "013" (String "010" rest)) EmptyString lines.

End Send.

(** * Properties *)

(** ** Strings *)

Section StringFacts.

Lemma startswith_spec (s p : string) :
  startswith s p = true ↔ ∃ rest, s = p +:+ rest.
Proof.
  revert s. induction p as [|c p IH]; intros s; simpl.
  - split; [intros _; by exists s | done].
  - destruct s as [|d s]; simpl.
    + split; [done | by intros [rest ?]].
    + rewrite andb_true_iff, Ascii.eqb_eq, IH.
      split; [intros [-> [rest ->]]; by exists rest | intros [rest [= -> ->]]; eauto].
Qed.

Lemma lower_ascii_idemp (c : ascii) : lower_ascii (lower_ascii c) = lower_ascii c.
Proof. by destruct c as [[] [] [] [] [] [] [] []]. Qed.

Lemma upper_lower_ascii (c : ascii) : upper_ascii (lower_ascii c) = upper_ascii c.
Proof. by destruct c as [[] [] [] [] [] [] [] []]. Qed.

Lemma lower_ascii_dash (c : ascii) :
  Ascii.eqb (lower_ascii c) "-" = Ascii.eqb c "-".
Proof. by destruct c as [[] [] [] [] [] [] [] []]. Qed.

Lemma lower_idemp (s : string) : lower (lower s) = lower s.
Proof. induction s as [|c s IH]; simpl; [done|]. by rewrite lower_ascii_idemp, IH. Qed.

Lemma capitalize_lower (s : string) : capitalize (lower s) = capitalize s.
Proof. destruct s as [|c s]; simpl; [done|]. by rewrite upper_lower_ascii, lower_idemp. Qed.

Lemma split_nonempty (sep : ascii) (s : string) : split sep s ≠ [].
Proof. induction s as [|c s IH]; simpl; [done|]. destruct (Ascii.eqb c sep), (split sep s); done. Qed.

Lemma split_lower (s : string) :
  split "-" (lower s) = map lower (split "-" s).
Proof.
  induction s as [|c s IH]; simpl; [done|].
  rewrite lower_ascii_dash, IH.
  destruct (Ascii.eqb c "-"); [done|].
  pose proof (split_nonempty "-" s).
  by destruct (split "-" s).
Qed.

(** A non-empty string does not lower-case to the empty string. *)
Lemma lower_empty (s : string) : lower s = EmptyString → s = EmptyString.
Proof. by destruct s. Qed.

End StringFacts.

(** ** HeaderDict *)

Section HeaderDictFacts.
Import HeaderDict.

Lemma _matches_spec (v spec : string) :
  ∃ b, _matches v (Some spec) = Return b ∧ (b = true ↔ semicolon_prefix_or_exact v spec).
Proof.
  unfold _matches, semicolon_prefix_or_exact. eexists; split; [done|].
  simpl. rewrite orb_true_iff, String.eqb_eq, startswith_spec. done.
Qed.

Lemma match_list_spec (l : list string) (spec : string) :
  (∃ r, match_list l (Some spec) = Return r) ∧
  (∀ v, match_list l (Some spec) = Return (Some v) →
        v ∈ l ∧ semicolon_prefix_or_exact v spec) ∧
  ((∃ v, v ∈ l ∧ semicolon_prefix_or_exact v spec) →
   ∃ v, match_list l (Some spec) = Return (Some v)).
Proof.
  induction l as [|x l (IH1 & IH2 & IH3)]; cbn [match_list].
  - split_and!; [by eexists | done | intros (v & Hv & _); by apply elem_of_nil in Hv].
  - destruct (_matches_spec x spec) as (b & -> & Hb); cbn [obind].
    destruct b.
    + split_and!; [by eexists | | by eexists].
      intros v [= <-]. split; [left | by apply Hb].
    + split_and!; [done | |].
      * intros v Hv. destruct (IH2 v Hv). split; [by right | done].
      * intros (v & Hv & Hm). apply IH3.
        apply elem_of_cons in Hv as [->|Hv]; [|by exists v].
        apply Hb in Hm. done.
Qed.

(** [match] with a spec never raises, and returns the first stored value
    that satisfies the rule. *)
Lemma match_spec (h : t) (key spec : string) :
  (∃ r, match_ h key (Some spec) = Return r) ∧
  (∀ v, match_ h key (Some spec) = Return (Some v) →
        v ∈ stored h (_key key) ∧ semicolon_prefix_or_exact v spec) ∧
  ((∃ v, v ∈ stored h (_key key) ∧ semicolon_prefix_or_exact v spec) →
   ∃ v, match_ h key (Some spec) = Return (Some v)).
Proof.
  unfold match_, stored.
  destruct (h !! _key key) as [[value|values]|]; cbn [values_of].
  - pose proof (match_list_spec [value] spec) as Hl. cbn [match_list] in Hl.
    destruct (_matches value (Some spec)) as [[]|]; cbn [obind] in *; exact Hl.
  - apply match_list_spec.
  - split_and!; [by eexists | done | intros (v & Hv & _); by apply elem_of_nil in Hv].
Qed.

(** Header names are canonicalised without regard to case. *)
Lemma _key_case_insensitive (k1 k2 : string) :
  lower k1 = lower k2 → _key k1 = _key k2.
Proof.
  intros Heq. unfold _key.
  assert (Hk : ∀ k, map capitalize (split "-" k) = map capitalize (split "-" (lower k))).
  { intros k. rewrite split_lower, map_map. apply map_ext. intros s.
    by rewrite capitalize_lower. }
  by rewrite (Hk k1), (Hk k2), Heq.
Qed.

(** [add] appends to what is stored under the canonical name. *)
Lemma stored_add (h : t) (key value : string) :
  stored (add key value h) (_key key) = stored h (_key key) ++ [value].
Proof.
  unfold stored, add.
  destruct (h !! _key key) as [[p|l]|]; by rewrite lookup_insert_eq.
Qed.

Lemma stored_add_ne (h : t) (key value k : string) :
  k ≠ _key key → stored (add key value h) k = stored h k.
Proof.
  intros Hne. unfold stored, add.
  destruct (h !! _key key) as [[p|l]|]; by rewrite lookup_insert_ne.
Qed.

(** Plain assignment keeps the last value only. *)
Lemma stored_setitem (h : t) (key value : string) :
  stored (setitem key value h) key = [value].
Proof. unfold stored, setitem. by rewrite lookup_insert_eq. Qed.

Lemma no_empty_list_add (h : t) (key value : string) :
  no_empty_list h = true → no_empty_list (add key value h) = true.
Proof.
  unfold no_empty_list. rewrite !bool_decide_eq_true. intros Hh. unfold add.
  destruct (h !! _key key) as [[p|l]|]; apply map_Forall_insert_2; try done.
  intros [=]. by destruct l.
Qed.

Lemma no_empty_list_setitem (h : t) (key value : string) :
  no_empty_list h = true → no_empty_list (setitem key value h) = true.
Proof.
  unfold no_empty_list. rewrite !bool_decide_eq_true. intros Hh.
  by apply map_Forall_insert_2.
Qed.

Lemma built_no_empty_list (h : t) : built h → no_empty_list h = true.
Proof.
  induction 1; [by vm_compute | by apply no_empty_list_add | by apply no_empty_list_setitem].
Qed.

End HeaderDictFacts.

Section HeaderClaims.
Import HeaderDict.

(** C7. For every HeaderMap, key and spec string, [match] does not raise;
    whatever value it returns is stored under the canonicalised key and
    satisfies the semicolon-prefix-or-exact rule; it returns such a value
    whenever one is stored there; and the key is taken without regard to
    case. *)
Theorem C7_match_semicolon_prefix_or_exact (h : t) (key spec : string) :
  (∃ r, match_ h key (Some spec) = Return r) ∧
  (∀ v, match_ h key (Some spec) = Return (Some v) →
        v ∈ stored h (_key key) ∧ semicolon_prefix_or_exact v spec) ∧
  ((∃ v, v ∈ stored h (_key key) ∧ semicolon_prefix_or_exact v spec) →
   ∃ v, match_ h key (Some spec) = Return (Some v)) ∧
  (∀ key', lower key' = lower key →
           match_ h key' (Some spec) = match_ h key (Some spec)).
Proof.
  destruct (match_spec h key spec) as (H1 & H2 & H3).
  split_and!; [done..|].
  intros key' Hk. unfold match_. by rewrite (_key_case_insensitive key' key).
Qed.

(** C10. For every HeaderMap without empty lists and every key whose
    canonical form is present, [match] with the key alone (spec [None])
    raises AttributeError instead of returning the stored value. *)
Theorem C10_match_without_spec_raises (h : t) (key : string) :
  no_empty_list h = true →
  is_Some (h !! _key key) →
  match_ h key None = Raise AttributeError.
Proof.
  unfold no_empty_list. rewrite bool_decide_eq_true. intros Hne [v Hv].
  unfold match_. rewrite Hv.
  destruct v as [value|[|v values]]; [done | | done].
  by specialize (Hne _ _ Hv).
Qed.

Lemma C10_witness :
  match_ (add "content-type" "text/html" ∅) "Content-Type" None = Raise AttributeError.
Proof.
  apply C10_match_without_spec_raises.
  - apply no_empty_list_add. by vm_compute.
  - vm_compute. by eexists.
Defined.

End HeaderClaims.

(** ** Request: reply headers and body framing *)

Section RequestFacts.
Import HeaderDict Asyn Http.

Lemma matches_spec (h : t) (key spec : string) :
  spec ≠ EmptyString →
  ∃ b, matches h key spec = Return b ∧
       (b = true ↔ ∃ v, v ∈ stored h (_key key) ∧ semicolon_prefix_or_exact v spec).
Proof.
  intros Hspec. unfold matches.
  destruct (match_spec h key spec) as ([r Hr] & H2 & H3). rewrite Hr. cbn [obind].
  eexists; split; [done|]. split.
  - destruct r as [v|]; [|done]. intros _. exists v. by apply H2.
  - intros Hex. destruct (H3 Hex) as [v Hv].
    rewrite Hr in Hv. injection Hv as ->.
    destruct (H2 v Hr) as [_ Hsp].
    destruct v as [|c v]; [|done]. exfalso.
    destruct Hsp as [Hsp|[rest Hsp]]; simpl in Hsp.
    + symmetry in Hsp. by apply lower_empty in Hsp.
    + by destruct (lower spec).
Qed.

(** A reply header line is stored by plain assignment, under the name as
    received: whatever was stored under that name is gone. *)
Lemma incoming_header (r : Request) (name value : string) :
  let '(ctx, args) := header_line name value in
  ∃ r', incoming ctx args r = (Return tt, r') ∧
        stored (h_reply r') name = [value].
Proof.
  simpl. eexists; split; [done|]. simpl. apply stored_setitem.
Qed.

(** Plain assignment also keeps the name as received: a reply that spells
    the header name in lower case is stored under that spelling, where
    [match] does not look, and its body is not taken as chunked. *)
Example lowercase_reply_header_not_matched :
  ∃ r, deliver [header_line "transfer-encoding" "chunked";
                (in_state "end-headers", [])]
               (Http.new "http://host:8000/++systemInfo") = (Return tt, r) ∧
       filters r = [] ∧
       stored (h_reply r) "transfer-encoding" = ["chunked"].
Proof. eexists. split_and!; by vm_compute. Qed.

Lemma through_app transform (fs gs : list Filter) data :
  through transform (fs ++ gs) data = through transform gs (through transform fs data).
Proof. apply fold_left_app. Qed.

(** C1. A reply that carries the same header name twice: [incoming] keeps
    only the last value, where [HeaderDict.add] on the same two lines keeps
    both in arrival order. *)
Theorem C1_repeated_reply_header_overwritten :
  let lines := [header_line "Set-Cookie" "a=1"; header_line "Set-Cookie" "b=2"] in
  ∃ r, deliver lines (Http.new "http://host:8000/++systemInfo") = (Return tt, r) ∧
       stored (h_reply r) (_key "Set-Cookie") = ["b=2"] ∧
       match_ (h_reply r) "Set-Cookie" (Some "a=1") = Return None ∧
       stored (add "Set-Cookie" "b=2" (add "Set-Cookie" "a=1" ∅)) (_key "Set-Cookie")
       = ["a=1"; "b=2"].
Proof. eexists. split_and!; by vm_compute. Qed.

(** C3. Once the headers are complete, [_prepare_body] clears the scan rule
    set and appends, nearest the consumer, the chunked decoder exactly when
    Transfer-Encoding matches [chunked] and then the gzip decoder exactly
    when Content-Encoding matches [gzip]; with both, the bytes pass the
    chunked decoder first; from then on raw bytes go to the body as they come. *)
Theorem C3_prepare_body_framing (r : Request) :
  ∃ (te ce : bool) (r' : Request),
    (te = true ↔ ∃ v, v ∈ stored (h_reply r) "Transfer-Encoding"
                     ∧ semicolon_prefix_or_exact v "chunked") ∧
    (ce = true ↔ ∃ v, v ∈ stored (h_reply r) "Content-Encoding"
                     ∧ semicolon_prefix_or_exact v "gzip") ∧
    _prepare_body r = (Return tt, r') ∧
    Http.scan r' = None ∧
    filters r' = filters r ++ (if te then [ChunkedCoder] else [])
                           ++ (if ce then [GZipCoder] else []) ∧
    (te = true → ce = true → ∀ transform data,
       through transform (filters r') data
       = transform GZipCoder (transform ChunkedCoder (through transform (filters r) data))) ∧
    (∀ c b b', error c = None → state c = "RAW" →
       ∃ r1 r2, incoming c [VBytes b] r' = (Return tt, r1) ∧
                incoming c [VBytes b'] r1 = (Return tt, r2) ∧
                body_reply r2 = Some (b ++ b')).
Proof.
  destruct (matches_spec (h_reply r) "Transfer-Encoding" "chunked") as (te & Hte & Hte'); [done|].
  destruct (matches_spec (h_reply r) "Content-Encoding" "gzip") as (ce & Hce & Hce'); [done|].
  exists te, ce. unfold _prepare_body.
  assert (Hh : ∀ r0, h_reply (if te then insert_filter ChunkedCoder r0 else r0) = h_reply r0)
    by (intros; by destruct te).
  change (h_reply (set_body_reply (Some []) (set_scan None r))) with (h_reply r).
  rewrite Hte, Hh.
  change (h_reply (set_body_reply (Some []) (set_scan None r))) with (h_reply r).
  rewrite Hce.
  eexists. split_and!; [exact Hte' | exact Hce' | done | by destruct te, ce | | |].
  - destruct te, ce; simpl; by rewrite <- ?app_assoc, ?app_nil_r.
  - intros -> -> transform data. simpl. by rewrite !through_app.
  - intros c b b' Hc Hs. unfold incoming. rewrite Hc, Hs.
    destruct te, ce; simpl; do 2 eexists; done.
Qed.

End RequestFacts.

(** ** Lists *)

Section ListFacts.
Context {A : Type} (P : A → Prop) `{!∀ x, Decision (P x)}.

Lemma filter_all (l : list A) : Forall P l → filter P l = l.
Proof.
  induction 1 as [|x l Hx Hl IH]; [done|].
  by rewrite filter_cons_True, IH.
Qed.

Lemma filter_none (l : list A) : Forall (λ x, ¬ P x) l → filter P l = [].
Proof.
  induction 1 as [|x l Hx Hl IH]; [done|].
  by rewrite filter_cons_False.
Qed.

End ListFacts.

(** ** Ordered dicts *)

Section ODictFacts.
Context {V : Type}.
Implicit Types (d : ODict.t V) (k : Z) (v : V).

Lemma get_elem_of d k v : ODict.get k d = Some v → (k, v) ∈ d.
Proof.
  induction d as [|[k' v'] d IH]; simpl; [done|].
  case_bool_decide as Hk; [intros [= ->]; subst; left | intros; right; auto].
Qed.

Lemma get_None d k : ODict.get k d = None ↔ k ∉ ODict.keys d.
Proof.
  unfold ODict.keys. induction d as [|[k' v'] d IH]; simpl.
  - split; [intros _; apply not_elem_of_nil | done].
  - rewrite not_elem_of_cons, <- IH. case_bool_decide.
    + split; [done | intros [? _]; congruence].
    + split; [intros ?; split; [congruence | done] | by intros [_ ?]].
Qed.

Lemma get_is_Some d k : is_Some (ODict.get k d) ↔ k ∈ ODict.keys d.
Proof.
  rewrite <- not_eq_None_Some, get_None.
  destruct (decide (k ∈ ODict.keys d)); naive_solver.
Qed.

Lemma elem_of_get d k v : NoDup (ODict.keys d) → (k, v) ∈ d → ODict.get k d = Some v.
Proof.
  unfold ODict.keys. induction d as [|[k' v'] d IH]; simpl; intros Hnd Hin.
  - by apply elem_of_nil in Hin.
  - apply NoDup_cons in Hnd as [Hk' Hnd].
    apply elem_of_cons in Hin as [[= -> ->]|Hin].
    + by rewrite bool_decide_eq_true_2.
    + rewrite bool_decide_eq_false_2; [by apply IH|].
      intros ->. apply Hk'. apply list_elem_of_fmap. by exists (k, v).
Qed.

Lemma mem_true d k : ODict.mem k d = true ↔ k ∈ ODict.keys d.
Proof.
  rewrite <- get_is_Some. unfold ODict.mem.
  destruct (ODict.get k d); split; (done || by intros [? ?] || eauto).
Qed.

Lemma get_app d1 d2 k :
  ODict.get k (d1 ++ d2) =
  match ODict.get k d1 with Some v => Some v | None => ODict.get k d2 end.
Proof.
  induction d1 as [|[k' v'] d1 IH]; simpl; [done|]. by case_bool_decide.
Qed.

(** A new key goes last. *)
Lemma set_fresh d k v : ODict.get k d = None → ODict.set k v d = d ++ [(k, v)].
Proof.
  induction d as [|[k' v'] d IH]; simpl; [done|].
  case_bool_decide; [done|]. intros Hg. by rewrite IH.
Qed.

Lemma remove_filter d k :
  NoDup (ODict.keys d) → ODict.remove k d = filter (λ kv, kv.1 ≠ k) d.
Proof.
  unfold ODict.keys. induction d as [|[k' v'] d IH]; intros Hnd; [done|].
  rewrite fmap_cons in Hnd. apply NoDup_cons in Hnd as [Hk' Hnd].
  cbn [ODict.remove]. case_bool_decide as Hk.
  - subst. rewrite filter_cons_False by (simpl; tauto).
    symmetry. apply filter_all. rewrite Forall_forall.
    intros [k0 v0] Hin Heq. simpl in Heq. apply Hk'.
    apply list_elem_of_fmap. exists (k0, v0). by split.
  - rewrite filter_cons_True by done. by rewrite IH.
Qed.

Lemma keys_filter_NoDup d (P : Z * V → Prop) `{∀ x, Decision (P x)} :
  NoDup (ODict.keys d) → NoDup (ODict.keys (filter P d)).
Proof.
  unfold ODict.keys. intros Hnd.
  eapply sublist_NoDup; [done|]. apply (fmap_sublist fst), sublist_filter.
Qed.

Lemma del_spec d k :
  NoDup (ODict.keys d) → k ∈ ODict.keys d →
  ODict.del k d = Return (filter (λ kv, kv.1 ≠ k) d).
Proof.
  intros Hnd Hk. unfold ODict.del.
  apply mem_true in Hk. rewrite Hk. by rewrite remove_filter.
Qed.

End ODictFacts.

(** ** The event tap *)

Section EventTapFacts.
Import Asyn Core.

Lemma elem_of_motion_names (codes : Z) (name : string) :
  name ∈ motion_names codes ↔ named_by_bits codes name.
Proof.
  assert (Hnd : NoDup (ODict.keys MOTION_CODES)).
  { apply (bool_decide_unpack _). by vm_compute. }
  unfold motion_names, named_by_bits. rewrite list_elem_of_omap. split.
  - intros (code & Hin & Hget). case_bool_decide as Hbit; [|done].
    exists code. split; [|done]. by apply get_elem_of.
  - intros (code & Hin & Hbit). exists code.
    rewrite bool_decide_eq_true_2 by done. split.
    + unfold ODict.keys. apply list_elem_of_fmap. by exists (code, name).
    + by apply elem_of_get.
Qed.

Lemma elem_of_motions (codes : Z) (name : string) :
  name ∈ motions codes ↔
  named_by_bits codes name ∨ (name = "motion" ∧ ∀ name', ¬ named_by_bits codes name').
Proof.
  unfold motions. destruct (motion_names codes) as [|n ns] eqn:Hnames.
  - rewrite elem_of_list_to_set, list_elem_of_singleton. split.
    + intros ->. right. split; [done|]. intros name' Hn.
      apply elem_of_motion_names in Hn. rewrite Hnames in Hn. by apply elem_of_nil in Hn.
    + intros [Hn|[-> _]]; [|done].
      apply elem_of_motion_names in Hn. rewrite Hnames in Hn. by apply elem_of_nil in Hn.
  - rewrite elem_of_list_to_set, <- Hnames, elem_of_motion_names. split; [by left|].
    intros [Hn|[_ Hno]]; [done|]. exfalso. apply (Hno n).
    apply elem_of_motion_names. rewrite Hnames. left.
Qed.

(** [update] makes one request and nothing else. *)
Lemma update_spec (w : World) :
  update w = (Return tt, set_requests (requests w ++ [Http.new "/++systemInfo"]) w).
Proof. done. Qed.

End EventTapFacts.

Section EventTapClaims.
Import Asyn Core.

(** C8. An event-tap record of a camera-numbered rule whose camera number is
    not in the camera map: [reply] returns normally, makes the
    [++systemInfo] request of a full refresh, and does nothing else: no callout
    (neither to a camera nor an error) and no camera object touched. *)
Theorem C8_unknown_camera_triggers_refresh
    (w : World) (req : loc) (c : Context) (ts : Value) (seq cn : string)
    (rest : list Value) (s cnum : Z) :
  error c = None →
  Asyn.scan c = Some ScanEventTap →
  state c ∈ camera_record_states →
  Py.int seq = Return s →
  Py.int cn = Return cnum →
  ODict.get cnum (cameras w) = None →
  reply req c (ts :: VStr seq :: VStr cn :: rest) w
  = (Return tt, set_requests (requests w ++ [Http.new "/++systemInfo"]) w).
Proof.
  intros Herr Hscan Hstate Hseq Hcn Hget.
  unfold reply. rewrite Herr, Hscan.
  unfold camera_record_states in Hstate. set_unfold.
  destruct_or!; try done; rewrite Hstate; simpl;
    unfold bind, lift; simpl; rewrite Hseq, Hcn; simpl;
    unfold gets; by rewrite Hget.
Qed.

Lemma C8_witness :
  reply 1%nat (tap_record "motion") [VStr "20260101120000"; VStr "7"; VStr "9"; VStr "MOTION"]
        tap_world
  = (Return tt, set_requests (requests tap_world ++ [Http.new "/++systemInfo"]) tap_world).
Proof.
  apply (C8_unknown_camera_triggers_refresh tap_world 1%nat (tap_record "motion")
           (VStr "20260101120000") "7" "9" [VStr "MOTION"] 7 9);
    [reflexivity | reflexivity | | reflexivity | reflexivity | reflexivity].
  vm_compute. left.
Defined.

(** C9 as stated fails for a bitmask without any known bit: the record
    [TRIGGER_M 0] on the known camera 3 emits [trigger("recording", {"motion"})],
    although no reason has its bit set in 0. *)
Lemma C9_counterexample_empty_bitmask :
  ∃ S, reply 1%nat (tap_record "trigger")
             [VStr "20260101120000"; VStr "7"; VStr "3"; VStr "M"; VStr "0"] tap_world
       = (Return tt,
          set_log [{| source := OnCamera 0%nat; ctx := in_state "trigger";
                      args := [VStr "recording"; VSet S] |}] tap_world)
       ∧ ¬ (∀ name, name ∈ S ↔ named_by_bits 0 name).
Proof.
  exists {["motion"]}. split; [by vm_compute|].
  intros H. destruct (proj1 (H "motion")) as (code & _ & Hbit); [set_solver|].
  by rewrite Z.land_0_r in Hbit.
Qed.

(** C9, amended. A [trigger] record with type letter M and a numeric bitmask
    on a known camera makes that camera emit [trigger("recording", S)] and
    nothing else, where S holds the reason names whose code bit is set, or
    ["motion"] alone when no listed bit is set; bitmask 3 gives
    [{"motion", "audio"}]. *)
Theorem C9_trigger_reason_set
    (w : World) (req : loc) (c : Context) (ts : Value) (seq cn reasons : string)
    (s cnum codes : Z) (camera : loc) :
  error c = None →
  Asyn.scan c = Some ScanEventTap →
  state c = "trigger" →
  Py.int seq = Return s →
  Py.int cn = Return cnum →
  Py.int reasons = Return codes →
  ODict.get cnum (cameras w) = Some camera →
  reply req c [ts; VStr seq; VStr cn; VStr "M"; VStr reasons] w
  = (Return tt,
     set_log (log w ++ [{| source := OnCamera camera; ctx := in_state "trigger";
                           args := [VStr "recording"; VSet (motions codes)] |}]) w)
  ∧ (∀ name, name ∈ motions codes ↔
       named_by_bits codes name ∨ (name = "motion" ∧ ∀ name', ¬ named_by_bits codes name'))
  ∧ motions 3 = {["motion"; "audio"]}.
Proof.
  intros Herr Hscan Hstate Hseq Hcn Hreasons Hget.
  split_and!; [|apply elem_of_motions|done].
  unfold reply. rewrite Herr, Hscan, Hstate. simpl.
  unfold bind, lift; simpl. rewrite Hseq, Hcn; simpl.
  unfold gets. rewrite Hget.
  unfold _event_tap. cbn [state set_spy]. rewrite Hstate. simpl.
  unfold bind, lift, subscript.
  replace (TRIGGER_TYPES !! "M") with (Some "recording") by reflexivity.
  simpl. by rewrite Hreasons.
Qed.

Lemma C9_witness :
  reply 1%nat (tap_record "trigger")
        [VStr "20260101120000"; VStr "7"; VStr "3"; VStr "M"; VStr "3"] tap_world
  = (Return tt,
     set_log (log tap_world ++
              [{| source := OnCamera 0%nat; ctx := in_state "trigger";
                  args := [VStr "recording"; VSet (motions 3)] |}]) tap_world)
  ∧ (∀ name, name ∈ motions 3 ↔
       named_by_bits 3 name ∨ (name = "motion" ∧ ∀ name', ¬ named_by_bits 3 name'))
  ∧ motions 3 = {["motion"; "audio"]}.
Proof.
  apply (C9_trigger_reason_set tap_world 1%nat (tap_record "trigger")
           (VStr "20260101120000") "7" "3" "3" 7 3 3 0%nat); reflexivity.
Defined.

End EventTapClaims.

(** ** The tap's life cycle *)

Section TapRestart.
Import Asyn Core.

Lemma alter_insert {A} (f : A → A) (l : list A) (i : nat) (x : A) :
  l !! i = Some x → alter f i l = <[i := f x]> l.
Proof.
  revert i. induction l as [|y l IH]; intros [|i] Hi; simplify_eq/=; [done|].
  f_equal. by apply IH.
Qed.

Lemma reply_body (w : World) (req : loc) (rq : Http.Request) (c : Context) (a : list Value) :
  _events w = Some req → requests w !! req = Some rq →
  error c = None → state c = "body" →
  reply req c a w = (Return tt, restarted w req rq).
Proof.
  intros He Hrq Herr Hstate. unfold reply. rewrite Herr, Hstate. simpl.
  unfold bind, _close_events, bind, gets. rewrite He. simpl.
  unfold restarted, set_events, set_requests. simpl.
  rewrite (alter_insert _ _ _ _ Hrq).
  unfold _event_stream, bind, _request, modify, set_events, set_requests. simpl.
  by rewrite length_insert.
Qed.

Lemma restarted_reestablished (w : World) (req : loc) (rq : Http.Request) :
  reestablished w (restarted w req rq).
Proof.
  unfold reestablished, restarted. simpl. split; [done|].
  rewrite lookup_app_r by (by rewrite length_insert).
  by rewrite length_insert, Nat.sub_diag.
Qed.

Lemma reply_error (w : World) (req : loc) (rq : Http.Request) (c : Context)
    (a : list Value) (e : Error) :
  _events w = Some req → requests w !! req = Some rq →
  error c = Some e →
  reply req c a w
  = (Return tt,
     set_log (log w ++ [{| source := OnSpy; ctx := c; args := [] |}])
       (set_events None (set_requests (<[req := Http.close rq]> (requests w)) w))).
Proof.
  intros He Hrq Herr. unfold reply. rewrite Herr. simpl.
  unfold bind, _close_events, bind, gets. rewrite He. simpl.
  unfold set_log, set_events, set_requests. simpl.
  by rewrite (alter_insert _ _ _ _ Hrq).
Qed.

(** The headers of a tap answered with status 200 install the event
    grammar on that request. *)
Lemma reply_headers_200 (w : World) (req : loc) (rq : Http.Request) (a : list Value) :
  requests w !! req = Some rq → Http.n_status rq = Some "200" →
  reply req (in_state "headers") a w
  = (Return tt,
     set_requests (<[req := Http.set_scan (Some ScanEventTap) rq]> (requests w))
       (set_log (log w ++ [{| source := OnSpy; ctx := in_state "event tap";
                              args := [VStr "200"] |}]) w)).
Proof.
  intros Hrq Hn. unfold reply. simpl.
  unfold bind, gets. rewrite Hrq. simpl. rewrite Hn. simpl.
  unfold with_request, modify, set_requests, set_log. simpl.
  by rewrite (alter_insert _ _ _ _ Hrq).
Qed.

Lemma stream_closes_spec (n : nat) (w : World) (req : loc) (rq : Http.Request) :
  _events w = Some req → requests w !! req = Some rq →
  ∃ w', stream_closes n w = (Return tt, w') ∧
        length (requests w') = (length (requests w) + n)%nat ∧
        log w' = log w ∧ heap w' = heap w ∧ cameras w' = cameras w ∧
        ((0 < n)%nat →
         _events w' = Some (length (requests w) + n - 1)%nat ∧
         requests w' !! (length (requests w) + n - 1)%nat
         = Some (Http.new "/++eventStream?version=2")).
Proof.
  revert w req rq. induction n as [|n IH]; intros w req rq He Hrq.
  - exists w. split_and!; [done | simpl; lia | done.. | lia].
  - cbn [stream_closes]. unfold bind at 1, gets. rewrite He.
    unfold bind at 1. rewrite (reply_body w req rq) by done.
    destruct (restarted_reestablished w req rq) as [He' Hrq'].
    assert (Hlen1 : length (requests (restarted w req rq)) = S (length (requests w))).
    { unfold restarted. simpl. rewrite length_app, length_insert. simpl. lia. }
    destruct n as [|n].
    + exists (restarted w req rq). split_and!; [done | lia | done.. |].
      intros _.
      replace (length (requests w) + 1 - 1)%nat with (length (requests w)) by lia. done.
    + destruct (IH _ _ _ He' Hrq') as (w' & -> & Hlen & Hlog & Hheap & Hcams & Hlast).
      exists w'. split_and!; [done | lia | done.. |].
      intros _. destruct Hlast as [H1 H2]; [lia|]. rewrite Hlen1 in H1, H2.
      replace (length (requests w) + S (S n) - 1)%nat
        with (S (length (requests w)) + S n - 1)%nat by lia. done.
Qed.

End TapRestart.

Section TapRestartClaims.
Import Asyn Core.

(** C2 as stated fails on an I/O error: the tap is closed and the error is
    handed to the callout, but no new request is made. *)
Lemma C2_counterexample_error_closes_tap :
  ∃ w', reply 1%nat (in_error (OSError "Connection reset by peer")) [] tap_world
        = (Return tt, w')
        ∧ _events w' = None
        ∧ length (requests w') = length (requests tap_world)
        ∧ ¬ reestablished tap_world w'.
Proof.
  eexists. split_and!; [by vm_compute | done | done |].
  by intros [? _].
Qed.

(** C2, amended. For a live tap: when its body completes (the peer closed
    the connection) the tap is closed and a new request takes its place at
    once, whose header exchange installs the event grammar again; this
    happens as often as the body completes, without delay or count. On an
    I/O error the tap is closed and the error handed to the callout; no new
    request is made. *)
Theorem C2_tap_restarts_on_close_only (w : World) (req : loc) (rq : Http.Request) :
  _events w = Some req →
  requests w !! req = Some rq →
  (∀ c a, error c = None → state c = "body" →
     reply req c a w = (Return tt, restarted w req rq)) ∧
  reestablished w (restarted w req rq) ∧
  requests (restarted w req rq) !! req = Some (Http.close rq) ∧
  log (restarted w req rq) = log w ∧
  Http.scan (Http.new "/++eventStream?version=2") = Some ScanHeaders ∧
  (∀ w1 r1 rq1 a, requests w1 !! r1 = Some rq1 → Http.n_status rq1 = Some "200" →
     ∃ w2, reply r1 (in_state "headers") a w1 = (Return tt, w2) ∧
           requests w2 !! r1 = Some (Http.set_scan (Some ScanEventTap) rq1)) ∧
  (∀ n, ∃ w', stream_closes n w = (Return tt, w') ∧
              length (requests w') = (length (requests w) + n)%nat ∧
              log w' = log w ∧
              ((0 < n)%nat →
               _events w' = Some (length (requests w) + n - 1)%nat ∧
               requests w' !! (length (requests w) + n - 1)%nat
               = Some (Http.new "/++eventStream?version=2"))) ∧
  (∀ c a e, error c = Some e →
     ∃ w', reply req c a w = (Return tt, w') ∧
           _events w' = None ∧
           requests w' = <[req := Http.close rq]> (requests w) ∧
           log w' = log w ++ [{| source := OnSpy; ctx := c; args := [] |}]).
Proof.
  intros He Hrq.
  assert (Hlt : (req < length (requests w))%nat) by by eapply lookup_lt_Some.
  split_and!.
  - intros c a Herr Hstate. by apply reply_body.
  - apply restarted_reestablished.
  - unfold restarted. simpl.
    rewrite lookup_app_l by (by rewrite length_insert).
    by rewrite list_lookup_insert_eq.
  - done.
  - done.
  - intros w1 r1 rq1 a Hrq1 Hn. eexists. split; [by apply reply_headers_200|].
    simpl. rewrite list_lookup_insert_eq; [done|]. by eapply lookup_lt_Some.
  - intros n. destruct (stream_closes_spec n w req rq He Hrq)
      as (w' & Hw' & Hlen & Hlog & _ & _ & Hlast).
    exists w'. by split_and!.
  - intros c a e Herr. eexists. split; [by eapply reply_error|]. done.
Qed.

Lemma C2_witness :
  reply 1%nat (in_state "body") [VBytes []] tap_world
  = (Return tt, restarted tap_world 1%nat (Http.new "/++eventStream?version=2")).
Proof.
  exact (proj1 (C2_tap_restarts_on_close_only tap_world 1%nat
                  (Http.new "/++eventStream?version=2") eq_refl eq_refl)
               (in_state "body") [VBytes []] eq_refl eq_refl).
Defined.

End TapRestartClaims.

(** ** Reconciliation *)

Section Reconcile.
Import Asyn Core.
Implicit Types (w : World) (S : list Camera) (elem : Camera) (l : loc) (k : Z).

Lemma wf_spec w :
  wf w = true ↔
  NoDup (ODict.keys (cameras w)) ∧
  ∀ k l, (k, l) ∈ cameras w → ∃ c, heap w !! l = Some c ∧ number c = k.
Proof.
  unfold wf. rewrite andb_true_iff, bool_decide_eq_true, forallb_forall.
  apply and_iff_compat_l. split.
  - intros Hall k l Hin. apply list_elem_of_In, Hall in Hin.
    destruct (heap w !! l) as [c|]; [|done].
    apply bool_decide_eq_true in Hin. by exists c.
  - intros Hall [k l] Hin. apply list_elem_of_In, Hall in Hin as (c & -> & Hc).
    by apply bool_decide_eq_true.
Qed.

Lemma wf_initial : wf initial = true.
Proof. by vm_compute. Qed.








Lemma wf_get w k l :
  wf w = true → ODict.get k (cameras w) = Some l →
  ∃ c, heap w !! l = Some c ∧ number c = k.
Proof. intros [_ Hall]%wf_spec Hget. by apply Hall, get_elem_of. Qed.

(** Two numbers never share a camera object. *)
Lemma wf_inj w k1 k2 l :
  wf w = true → ODict.get k1 (cameras w) = Some l → ODict.get k2 (cameras w) = Some l →
  k1 = k2.
Proof.
  intros Hwf H1 H2.
  destruct (wf_get _ _ _ Hwf H1) as (c1 & Hc1 & <-).
  destruct (wf_get _ _ _ Hwf H2) as (c2 & Hc2 & <-). congruence.
Qed.

Lemma wf_get_lt w k l :
  wf w = true → ODict.get k (cameras w) = Some l → (l < length (heap w))%nat.
Proof.
  intros Hwf Hget. destruct (wf_get _ _ _ Hwf Hget) as (c & Hc & _).
  by eapply lookup_lt_Some.
Qed.

Lemma merge_number c0 elem : number (merge c0 elem) = number c0.
Proof. done. Qed.

Lemma merge_idemp c0 elem : merge (merge c0 elem) elem = merge c0 elem.
Proof. done. Qed.

Lemma merge_self elem : merge elem elem = elem.
Proof. by destruct elem. Qed.

Lemma changed_merge c0 elem : changed (merge c0 elem) elem = false.
Proof.
  unfold changed. simpl.
  rewrite !bool_decide_eq_false_2; [done | by intros []..].
Qed.

Lemma changed_self elem : changed elem elem = false.
Proof.
  unfold changed. rewrite !bool_decide_eq_false_2; [done | by intros []..].
Qed.

Lemma changed_spec c0 elem :
  changed c0 elem = true ↔
  armed c0 ≠ armed elem ∨ connected c0 ≠ connected elem
  ∨ sensitivity c0 ≠ sensitivity elem.
Proof.
  unfold changed. rewrite !orb_true_iff, !bool_decide_eq_true. tauto.
Qed.

(** One turn of the first loop, for a number already in the map. *)
Lemma configure_cameras_known elem rest (old : ODict.t loc) w l c0 :
  ODict.get (number elem) (cameras w) = Some l → heap w !! l = Some c0 →
  configure_cameras (elem :: rest) old w =
  match ODict.del (number elem) old with
  | Return old' => configure_cameras rest old' (refreshed elem l c0 w)
  | Raise e => (Raise e, refreshed elem l c0 w)
  end.
Proof.
  intros Hget Hl.
  assert (Hlt : (l < length (heap w))%nat) by by eapply lookup_lt_Some.
  assert (Hl' : (heap w ++ [elem]) !! l = Some c0) by by apply lookup_app_l_Some.
  assert (Hu : (heap w ++ [elem]) !! length (heap w) = Some elem).
  { rewrite lookup_app_r, Nat.sub_diag by lia. done. }
  destruct w as [H cams reqs ev sv ver lg]. simpl in *.
  unfold refreshed, bind, new_camera, gets, _refresh, bind, deref, assign, bind, deref,
    modify, set_heap, set_log. simpl.
  rewrite Hget. simpl. rewrite Hl'. simpl. rewrite Hu. simpl. rewrite Hl'. simpl.
  destruct (changed c0 elem); unfold callout, modify, ret, lift, set_log; simpl;
    rewrite ?app_nil_r; by destruct (ODict.del (number elem) old).
Qed.

(** One turn of the first loop, for a new number. *)
Lemma configure_cameras_new elem rest (old : ODict.t loc) w :
  ODict.get (number elem) (cameras w) = None →
  configure_cameras (elem :: rest) old w = configure_cameras rest old (inserted elem w).
Proof.
  intros Hget.
  destruct w as [H cams reqs ev sv ver lg]. simpl in *.
  unfold inserted, bind, new_camera, gets, modify, callout, modify, set_log,
    set_cameras, set_heap. simpl.
  rewrite Hget. simpl. by rewrite set_fresh.
Qed.

Lemma filter_ext_in {A} (P Q : A → Prop) `{!∀ x, Decision (P x), !∀ x, Decision (Q x)}
    (xs : list A) :
  (∀ x, x ∈ xs → P x ↔ Q x) → filter P xs = filter Q xs.
Proof.
  induction xs as [|x xs IH]; intros Hext; [done|].
  rewrite !filter_cons.
  rewrite IH by (intros y Hy; apply Hext; by right).
  apply decide_ext, Hext. left.
Qed.

Lemma get_filter_key (P : Z → Prop) `{!∀ k, Decision (P k)} (d : ODict.t loc) k :
  ODict.get k (filter (λ kv, P kv.1) d) = if decide (P k) then ODict.get k d else None.
Proof.
  induction d as [|[k' v'] d IH]; [by destruct (decide (P k))|].
  rewrite filter_cons. cbn [fst]. destruct (decide (P k')) as [Hk'|Hk']; cbn [ODict.get].
  - case_bool_decide; subst; [by destruct (decide (P k)) | exact IH].
  - rewrite IH. case_bool_decide; subst; [by destruct (decide (P k)) | done].
Qed.

Lemma get_filter_ne (d : ODict.t loc) k k0 :
  ODict.get k (filter (λ kv, kv.1 ≠ k0) d) = if decide (k ≠ k0) then ODict.get k d else None.
Proof. exact (get_filter_key (λ k, k ≠ k0) d k). Qed.

Lemma wf_refreshed w elem l c0 :
  wf w = true → ODict.get (number elem) (cameras w) = Some l → heap w !! l = Some c0 →
  wf (refreshed elem l c0 w) = true.
Proof.
  intros [Hnd Hall]%wf_spec Hget Hl. apply wf_spec. split; [done|].
  intros k l' Hin. destruct (Hall k l' Hin) as (c & Hc & Hk).
  unfold refreshed. cbn [heap set_log set_heap].
  destruct (decide (l' = l)) as [->|Hne].
  - exists (merge c0 elem). split.
    + apply list_lookup_insert_eq. rewrite length_app. apply lookup_lt_Some in Hl. lia.
    + simpl. congruence.
  - exists c. split; [|done].
    rewrite list_lookup_insert_ne by done. by apply lookup_app_l_Some.
Qed.

Lemma wf_inserted w elem :
  wf w = true → ODict.get (number elem) (cameras w) = None →
  wf (inserted elem w) = true.
Proof.
  intros [Hnd Hall]%wf_spec Hget. apply wf_spec.
  unfold inserted. cbn [heap cameras set_log set_cameras set_heap]. split.
  - unfold ODict.keys. rewrite fmap_app. apply NoDup_app. split_and!; [done | | ].
    + intros k Hk. simpl. rewrite list_elem_of_singleton. intros ->.
      by apply get_None in Hget.
    + apply NoDup_singleton.
  - intros k l' [Hin|Hin]%elem_of_app.
    + destruct (Hall k l' Hin) as (c & Hc & Hk). exists c. split; [|done].
      by apply lookup_app_l_Some.
    + apply list_elem_of_singleton in Hin. injection Hin as -> ->.
      exists elem. split; [|done]. by rewrite lookup_app_r, Nat.sub_diag by lia.
Qed.

(** The first loop of [_configure], for a snapshot without repeated numbers. *)
Lemma configure_cameras_spec S : ∀ w (old : ODict.t loc),
  wf w = true → NoDup (number <$> S) → NoDup (ODict.keys old) →
  (∀ k l, ODict.get k old = Some l → ODict.get k (cameras w) = Some l) →
  (∀ elem, elem ∈ S → number elem ∈ ODict.keys (cameras w) →
           number elem ∈ ODict.keys old) →
  ∃ w' Δ news,
    configure_cameras S old w
    = (Return (filter (λ kv, kv.1 ∉ number <$> S) old), w') ∧
    wf w' = true ∧
    cameras w' = cameras w ++ news ∧
    log w' = log w ++ Δ ∧
    (∀ elem, elem ∈ S → ODict.get (number elem) (cameras w) = None →
       ∃ l, ODict.get (number elem) news = Some l ∧ heap w' !! l = Some elem
            ∧ added l ∈ Δ) ∧
    (∀ k l, (k, l) ∈ news →
       ∃ elem, elem ∈ S ∧ number elem = k ∧ ODict.get k (cameras w) = None) ∧
    (∀ elem l c0, elem ∈ S → ODict.get (number elem) (cameras w) = Some l →
       heap w !! l = Some c0 → heap w' !! l = Some (merge c0 elem)) ∧
    (∀ l c0, heap w !! l = Some c0 →
       (∀ elem, elem ∈ S → ODict.get (number elem) (cameras w) ≠ Some l) →
       heap w' !! l = Some c0) ∧
    (∀ e, e ∈ Δ →
       (∃ l elem, e = added l ∧ elem ∈ S ∧ ODict.get (number elem) (cameras w) = None
                  ∧ ODict.get (number elem) news = Some l) ∨
       (∃ l elem c0, e = status l ∧ elem ∈ S
                     ∧ ODict.get (number elem) (cameras w) = Some l
                     ∧ heap w !! l = Some c0 ∧ changed c0 elem = true)) ∧
    (∀ elem l c0, elem ∈ S → ODict.get (number elem) (cameras w) = Some l →
       heap w !! l = Some c0 → changed c0 elem = true → status l ∈ Δ).
Proof.
  induction S as [|elem rest IH]; intros w old Hwf HndS Hndold Hsub Hcover.
  { exists w, [], []. rewrite !app_nil_r. split_and!; try done.
    - cbn [configure_cameras]. unfold ret. f_equal. f_equal. symmetry.
      apply filter_all, Forall_forall. intros kv _. apply not_elem_of_nil.
    - intros elem Hin. by apply elem_of_nil in Hin.
    - intros k l Hin. by apply elem_of_nil in Hin.
    - intros elem l c0 Hin. by apply elem_of_nil in Hin.
    - intros e Hin. by apply elem_of_nil in Hin.
    - intros elem l c0 Hin. by apply elem_of_nil in Hin. }
  rewrite fmap_cons in HndS. apply NoDup_cons in HndS as [Hhead Hndrest].
  assert (Hfresh : ∀ e, e ∈ rest → number e ≠ number elem).
  { intros e He Heq. apply Hhead. rewrite <- Heq. apply list_elem_of_fmap. by exists e. }
  destruct (ODict.get (number elem) (cameras w)) as [l|] eqn:Hget.
  - (* the number is known: refresh *)
    destruct (wf_get _ _ _ Hwf Hget) as (c0 & Hl & Hnum).
    assert (Hlt : (l < length (heap w))%nat) by by eapply lookup_lt_Some.
    rewrite (configure_cameras_known _ _ _ _ _ _ Hget Hl).
    rewrite del_spec;
      [|done | apply Hcover; [left | apply get_is_Some; by rewrite Hget]].
    set (w2 := refreshed elem l c0 w).
    set (old2 := filter (λ kv, kv.1 ≠ number elem) old).
    assert (Hother : ∀ e l', e ∈ rest → ODict.get (number e) (cameras w) = Some l' → l' ≠ l).
    { intros e l' He Hg ->. apply (Hfresh e He). by eapply wf_inj. }
    assert (Hheap2 : ∀ l' c, l' ≠ l → heap w !! l' = Some c → heap w2 !! l' = Some c).
    { intros l' c Hne Hc. unfold w2, refreshed. cbn [heap set_log set_heap].
      rewrite list_lookup_insert_ne by done. by apply lookup_app_l_Some. }
    assert (Hheap2l : heap w2 !! l = Some (merge c0 elem)).
    { unfold w2, refreshed. cbn [heap set_log set_heap].
      apply list_lookup_insert_eq. rewrite length_app. lia. }
    destruct (IH w2 old2) as (w' & Δ & news & Hrun & Hwf' & Hcams & Hlog & HA & HB & HC & HD & HE & HF).
    { by apply wf_refreshed. }
    { done. }
    { by apply keys_filter_NoDup. }
    { intros k l'. unfold old2. rewrite get_filter_ne.
      case_decide; [apply Hsub | done]. }
    { intros e He Hk. apply get_is_Some. unfold old2.
      rewrite get_filter_ne.
      rewrite decide_True by by apply Hfresh.
      apply get_is_Some. by apply Hcover; [right|]. }
    exists w', ((if changed c0 elem then [status l] else []) ++ Δ), news.
    split_and!.
    + rewrite Hrun. f_equal. f_equal. unfold old2. rewrite list_filter_filter.
      apply list_filter_iff. intros [k v]. cbn [fst]. rewrite fmap_cons, not_elem_of_cons.
      tauto.
    + done.
    + done.
    + rewrite Hlog. unfold w2, refreshed. cbn [log set_log]. by rewrite app_assoc.
    + intros e [->|He]%elem_of_cons Hg; [congruence|].
      destruct (HA e He Hg) as (l' & ? & ? & ?). exists l'. split_and!; [done..|].
      apply elem_of_app. by right.
    + intros k l' Hin. destruct (HB k l' Hin) as (e & He & ? & ?).
      exists e. split_and!; [by right | done..].
    + intros e l' c0' [->|He]%elem_of_cons Hg Hc.
      * simplify_eq. apply (HD l (merge c0 elem)); [done|].
        intros e' He' Hg'. by apply (Hother e' l He').
      * apply HC; [done.. |]. apply Hheap2; [by eapply Hother | done].
    + intros l' c0' Hc Hno. apply HD.
      * apply Hheap2; [|done]. intros ->. by apply (Hno elem); [left|].
      * intros e He. apply Hno. by right.
    + intros e [Hin|Hin]%elem_of_app.
      * right. destruct (changed c0 elem) eqn:Hch; [|by apply elem_of_nil in Hin].
        apply list_elem_of_singleton in Hin as ->.
        exists l, elem, c0. split_and!; [done | left | done..].
      * destruct (HE e Hin) as [(l' & e' & -> & He' & Hg & Hn)|(l' & e' & c' & -> & He' & Hg & Hc & Hch)].
        -- left. exists l', e'. split_and!; [done | by right | done..].
        -- right. exists l', e', c'. split_and!; [done | by right | done | | done].
           assert (l' ≠ l) by by eapply Hother.
           unfold w2, refreshed in Hc. cbn [heap set_log set_heap] in Hc.
           rewrite list_lookup_insert_ne in Hc by done.
           rewrite lookup_app_l in Hc; [done|]. by eapply wf_get_lt.
    + intros e l' c0' [->|He]%elem_of_cons Hg Hc Hch.
      * simplify_eq. rewrite Hch. apply elem_of_app. left. left.
      * apply elem_of_app. right. apply (HF e l' c0'); [done.. | | done].
        apply Hheap2; [by eapply Hother | done].
  - (* the number is new: insert *)
    rewrite (configure_cameras_new _ _ _ _ Hget).
    set (w2 := inserted elem w).
    assert (Hcams2 : cameras w2 = cameras w ++ [(number elem, length (heap w))]) by done.
    assert (Hg2 : ∀ e, e ∈ rest →
              ODict.get (number e) (cameras w2) = ODict.get (number e) (cameras w)).
    { intros e He. rewrite Hcams2, get_app.
      destruct (ODict.get (number e) (cameras w)); [done|].
      cbn [ODict.get]. rewrite bool_decide_eq_false_2; [done|].
      intros Heq. by apply (Hfresh e He). }
    assert (Hheap2 : ∀ l' c, heap w !! l' = Some c → heap w2 !! l' = Some c).
    { intros l' c Hc. unfold w2, inserted. cbn [heap set_log set_cameras set_heap].
      by apply lookup_app_l_Some. }
    assert (Hheap2n : heap w2 !! length (heap w) = Some elem).
    { unfold w2, inserted. cbn [heap set_log set_cameras set_heap].
      by rewrite lookup_app_r, Nat.sub_diag by lia. }
    destruct (IH w2 old) as (w' & Δ & news & Hrun & Hwf' & Hcams & Hlog & HA & HB & HC & HD & HE & HF).
    { by apply wf_inserted. }
    { done. }
    { done. }
    { intros k l' Hk. rewrite Hcams2, get_app. by rewrite (Hsub k l' Hk). }
    { intros e He Hk. apply Hcover; [by right|].
      apply get_is_Some. rewrite <- Hg2 by done. by apply get_is_Some. }
    exists w', (added (length (heap w)) :: Δ), ((number elem, length (heap w)) :: news).
    split_and!.
    + rewrite Hrun. f_equal. f_equal. apply filter_ext_in.
      intros [k v] Hin. cbn [fst]. rewrite fmap_cons, not_elem_of_cons.
      split; [|tauto]. intros Hk. split; [|done]. intros ->.
      apply get_None in Hget. apply Hget.
      apply get_is_Some. erewrite Hsub; [done|]. by apply elem_of_get.
    + done.
    + rewrite Hcams, Hcams2. by rewrite <- app_assoc.
    + rewrite Hlog. unfold w2, inserted. cbn [log set_log]. by rewrite <- app_assoc.
    + intros e [->|He]%elem_of_cons Hg.
      * exists (length (heap w)). split_and!.
        -- cbn [ODict.get]. by rewrite bool_decide_eq_true_2.
        -- apply HD; [done|]. intros e' He'. rewrite Hg2 by done.
           intros Hg'. apply (wf_get_lt _ _ _ Hwf) in Hg'. lia.
        -- left.
      * rewrite <- Hg2 in Hg by done.
        destruct (HA e He Hg) as (l' & ? & ? & ?). exists l'. split_and!; [|done|by right].
        cbn [ODict.get]. rewrite bool_decide_eq_false_2; [done|].
        intros Heq. by apply (Hfresh e He).
    + intros k l' [[= -> ->]|Hin]%elem_of_cons.
      * exists elem. split_and!; [left | done..].
      * destruct (HB k l' Hin) as (e & He & <- & Hn). exists e.
        split_and!; [by right | done |]. by rewrite <- Hg2.
    + intros e l' c0' [->|He]%elem_of_cons Hg Hc; [congruence|].
      apply HC; [done | by rewrite Hg2 | by apply Hheap2].
    + intros l' c0' Hc Hno. apply HD; [by apply Hheap2|].
      intros e He. rewrite Hg2 by done. apply Hno. by right.
    + intros e [->|Hin]%elem_of_cons.
      * left. exists (length (heap w)), elem. split_and!; [done | left | done |].
        cbn [ODict.get]. by rewrite bool_decide_eq_true_2.
      * destruct (HE e Hin) as [(l' & e' & -> & He' & Hg & Hn)|(l' & e' & c' & -> & He' & Hg & Hc & Hch)].
        -- left. exists l', e'. rewrite Hg2 in Hg by done.
           split_and!; [done | by right | done |].
           cbn [ODict.get]. rewrite bool_decide_eq_false_2; [done|].
           intros Heq. by apply (Hfresh e' He').
        -- right. exists l', e', c'. rewrite Hg2 in Hg by done.
           split_and!; [done | by right | done | | done].
           unfold w2, inserted in Hc. cbn [heap set_log set_cameras set_heap] in Hc.
           rewrite lookup_app_l in Hc; [done|]. by eapply wf_get_lt.
    + intros e l' c0' [->|He]%elem_of_cons Hg Hc Hch; [congruence|].
      right. apply (HF e l' c0'); [done | by rewrite Hg2 | by apply Hheap2 | done].
Qed.

Lemma keys_filter (P : Z → Prop) `{!∀ k, Decision (P k)} (d : ODict.t loc) k :
  k ∈ ODict.keys (filter (λ kv, P kv.1) d) ↔ P k ∧ k ∈ ODict.keys d.
Proof.
  rewrite <- !get_is_Some, get_filter_key.
  destruct (decide (P k)); [tauto|]. split; [by intros [? ?] | tauto].
Qed.

Lemma keys_filter_ne (d : ODict.t loc) k k0 :
  k ∈ ODict.keys (filter (λ kv, kv.1 ≠ k0) d) ↔ k ≠ k0 ∧ k ∈ ODict.keys d.
Proof. exact (keys_filter (λ k, k ≠ k0) d k). Qed.

Lemma keys_filter_notin (d : ODict.t loc) k (ks : list Z) :
  k ∈ ODict.keys (filter (λ kv, (kv.1 ∉ ks)) d) ↔ (k ∉ ks) ∧ k ∈ ODict.keys d.
Proof. exact (keys_filter (λ k, k ∉ ks) d k). Qed.

(** The second loop of [_configure]. *)
Lemma remove_cameras_spec (old : ODict.t loc) : ∀ w,
  NoDup (ODict.keys (cameras w)) → NoDup (ODict.keys old) →
  (∀ k, k ∈ ODict.keys old → k ∈ ODict.keys (cameras w)) →
  ∃ w', remove_cameras old w = (Return tt, w') ∧
        heap w' = heap w ∧
        cameras w' = filter (λ kv, kv.1 ∉ ODict.keys old) (cameras w) ∧
        log w' = log w ++ ((λ kv, removed kv.2) <$> old).
Proof.
  induction old as [|[k l] old IH]; intros w Hnd Hndold Hsub.
  { exists w. split_and!; [reflexivity | done | | by rewrite fmap_nil, app_nil_r].
    symmetry. apply filter_all, Forall_forall. intros kv _. apply not_elem_of_nil. }
  unfold ODict.keys in Hndold. rewrite fmap_cons in Hndold.
  apply NoDup_cons in Hndold as [Hk Hndold]. cbn [fst] in Hk.
  cbn [remove_cameras]. unfold bind at 1, callout, modify.
  unfold bind at 1, gets. cbn [cameras set_log].
  unfold bind at 1, lift. rewrite del_spec; [|done | apply Hsub; left].
  unfold bind at 1, modify.
  set (w2 := set_cameras _ _).
  destruct (IH w2) as (w' & Hrun & Hheap & Hcams & Hlog).
  { unfold w2. cbn [cameras set_cameras]. by apply keys_filter_NoDup. }
  { done. }
  { intros k' Hk'. unfold w2. cbn [cameras set_cameras].
    apply keys_filter_ne. split; [by intros -> | apply Hsub; by right]. }
  exists w'. split_and!; [done | done | |].
  - rewrite Hcams. unfold w2. cbn [cameras set_cameras set_log].
    rewrite list_filter_filter. apply list_filter_iff.
    intros [k' v']. cbn [fst]. unfold ODict.keys. rewrite fmap_cons, not_elem_of_cons.
    tauto.
  - rewrite Hlog. unfold w2. cbn [log set_cameras set_log]. by rewrite <- app_assoc.
Qed.

Lemma wf_ext w w0 :
  heap w0 = heap w → cameras w0 = cameras w → wf w0 = wf w.
Proof. unfold wf. by intros -> ->. Qed.

(** Up to the camera block, [_configure] leaves cameras and log alone. *)
Lemma _configure_prefix w sn sv S :
  ∃ w0, _configure (Document sn sv S) w = update_camera_set S w0 ∧
        heap w0 = heap w ∧ cameras w0 = cameras w ∧ log w0 = log w.
Proof.
  unfold _configure, bind, modify, gets. cbn [_events set_server].
  destruct (_events w); eexists; (split; [reflexivity | done]).
Qed.

(** [_configure] on a well-formed document whose camera numbers are distinct. *)
Lemma _configure_spec w sn sv S :
  wf w = true → NoDup (number <$> S) →
  ∃ w' Δ news,
    _configure (Document sn sv S) w = (Return tt, w') ∧
    wf w' = true ∧
    cameras w' = filter (λ kv, kv.1 ∈ number <$> S) (cameras w) ++ news ∧
    log w' = log w ++ Δ
             ++ ((λ kv, removed kv.2) <$> filter (λ kv, kv.1 ∉ number <$> S) (cameras w))
             ++ [ready (cameras w')] ∧
    (∀ elem, elem ∈ S → ODict.get (number elem) (cameras w) = None →
       ∃ l, ODict.get (number elem) news = Some l ∧ heap w' !! l = Some elem
            ∧ added l ∈ Δ) ∧
    (∀ k l, (k, l) ∈ news →
       ∃ elem, elem ∈ S ∧ number elem = k ∧ ODict.get k (cameras w) = None) ∧
    (∀ elem l c0, elem ∈ S → ODict.get (number elem) (cameras w) = Some l →
       heap w !! l = Some c0 → heap w' !! l = Some (merge c0 elem)) ∧
    (∀ l c0, heap w !! l = Some c0 →
       (∀ elem, elem ∈ S → ODict.get (number elem) (cameras w) ≠ Some l) →
       heap w' !! l = Some c0) ∧
    (∀ e, e ∈ Δ →
       (∃ l elem, e = added l ∧ elem ∈ S ∧ ODict.get (number elem) (cameras w) = None
                  ∧ ODict.get (number elem) news = Some l) ∨
       (∃ l elem c0, e = status l ∧ elem ∈ S
                     ∧ ODict.get (number elem) (cameras w) = Some l
                     ∧ heap w !! l = Some c0 ∧ changed c0 elem = true)) ∧
    (∀ elem l c0, elem ∈ S → ODict.get (number elem) (cameras w) = Some l →
       heap w !! l = Some c0 → changed c0 elem = true → status l ∈ Δ).
Proof.
  intros Hwf HndS.
  destruct (_configure_prefix w sn sv S) as (w0 & -> & Hheap0 & Hcams0 & Hlog0).
  rewrite <- (wf_ext _ _ Hheap0 Hcams0) in Hwf.
  rewrite <- Hheap0, <- Hcams0, <- Hlog0. clear Hheap0 Hcams0 Hlog0 w.
  rename w0 into w.
  pose proof (proj1 (wf_spec w) Hwf) as [Hnd _].
  destruct (configure_cameras_spec S w (cameras w))
    as (w1 & Δ & news & Hrun & Hwf1 & Hcams1 & Hlog1 & HA & HB & HC & HD & HE & HF);
    [done.. |].
  set (gone := filter (λ kv, kv.1 ∉ number <$> S) (cameras w)) in *.
  pose proof (proj1 (wf_spec w1) Hwf1) as [Hnd1 Hall1].
  destruct (remove_cameras_spec gone w1) as (w2 & Hrun2 & Hheap2 & Hcams2 & Hlog2).
  { done. }
  { by apply keys_filter_NoDup. }
  { intros k [_ Hk]%keys_filter_notin.
    rewrite Hcams1. unfold ODict.keys. rewrite fmap_app. apply elem_of_app. by left. }
  assert (Hfinal : cameras w2 = filter (λ kv, kv.1 ∈ number <$> S) (cameras w) ++ news).
  { rewrite Hcams2, Hcams1, filter_app. f_equal.
    - apply filter_ext_in. intros [k v] Hin. cbn [fst].
      unfold gone. rewrite keys_filter_notin. split.
      + intros Hk. apply dec_stable. intros Hno. apply Hk. split; [done|].
        unfold ODict.keys. apply list_elem_of_fmap. by exists (k, v).
      + tauto.
    - apply filter_all, Forall_forall. intros [k v] Hin. cbn [fst].
      destruct (HB k v Hin) as (_ & _ & _ & Hn%get_None).
      unfold gone. by intros [_ ?]%keys_filter_notin. }
  exists (set_log (log w2 ++ [ready (cameras w2)]) w2), Δ, news.
  cbn [heap cameras log set_log]. rewrite Hheap2.
  split_and!; [ | | done | | done..].
  - unfold update_camera_set. unfold bind at 1, gets.
    unfold bind at 1. rewrite Hrun.
    unfold bind at 1. rewrite Hrun2. done.
  - apply wf_spec. cbn [heap cameras set_log]. split.
    + rewrite Hcams2. by apply keys_filter_NoDup.
    + intros k l Hin. rewrite Hheap2. apply Hall1.
      rewrite Hcams2 in Hin. by apply list_elem_of_filter in Hin as [_ ?].
  - rewrite Hlog2, Hlog1. by rewrite <- !app_assoc.
Qed.

Lemma get_filter_in (d : ODict.t loc) k (ks : list Z) :
  ODict.get k (filter (λ kv, kv.1 ∈ ks) d) = if decide (k ∈ ks) then ODict.get k d else None.
Proof. exact (get_filter_key (λ k, k ∈ ks) d k). Qed.

Lemma NoDup_fmap_eq {A B} (f : A → B) (xs : list A) (x y : A) :
  NoDup (f <$> xs) → x ∈ xs → y ∈ xs → f x = f y → x = y.
Proof.
  induction xs as [|z xs IH]; intros Hnd Hx Hy Heq; [by apply elem_of_nil in Hx|].
  rewrite fmap_cons in Hnd. apply NoDup_cons in Hnd as [Hz Hnd].
  apply elem_of_cons in Hx as [->|Hx]; apply elem_of_cons in Hy as [->|Hy].
  - done.
  - exfalso. apply Hz. rewrite Heq. by apply list_elem_of_fmap_2.
  - exfalso. apply Hz. rewrite <- Heq. by apply list_elem_of_fmap_2.
  - by apply IH.
Qed.

(** After [_configure], the map holds exactly the cameras of the document,
    each in step with its element. *)
Lemma _configure_in_step w sn sv S w' :
  wf w = true → NoDup (number <$> S) →
  _configure (Document sn sv S) w = (Return tt, w') →
  wf w' = true ∧
  (∀ kv, kv ∈ cameras w' → kv.1 ∈ number <$> S) ∧
  (∀ elem, elem ∈ S →
     ∃ l c, ODict.get (number elem) (cameras w') = Some l ∧ heap w' !! l = Some c
            ∧ merge c elem = c ∧ changed c elem = false).
Proof.
  intros Hwf HndS Hrun.
  destruct (_configure_spec w sn sv S Hwf HndS)
    as (w1 & Δ & news & Hrun1 & Hwf1 & Hcams & _ & HA & HB & HC & _).
  rewrite Hrun in Hrun1. injection Hrun1 as <-.
  split_and!; [done | |].
  - intros [k l]. rewrite Hcams. intros [Hin|Hin]%elem_of_app.
    + by apply list_elem_of_filter in Hin as [? _].
    + destruct (HB k l Hin) as (elem & He & <- & _). cbn [fst].
      by apply list_elem_of_fmap_2.
  - intros elem He.
    assert (Hk : number elem ∈ number <$> S) by by apply list_elem_of_fmap_2.
    destruct (ODict.get (number elem) (cameras w)) as [l|] eqn:Hget.
    + destruct (wf_get _ _ _ Hwf Hget) as (c0 & Hc0 & _).
      exists l, (merge c0 elem). split_and!.
      * rewrite Hcams, get_app, get_filter_in, decide_True by done. by rewrite Hget.
      * by apply (HC elem).
      * apply merge_idemp.
      * apply changed_merge.
    + destruct (HA elem He Hget) as (l & Hnews & Hl & _).
      exists l, elem. split_and!.
      * rewrite Hcams, get_app, get_filter_in, decide_True by done. by rewrite Hget.
      * done.
      * apply merge_self.
      * apply changed_self.
Qed.

(** A document that lists a camera number twice does not get through:
    the second check-off raises KeyError before ['ready']. *)
Example _configure_repeated_number :
  fst (_configure (Document None None [example_camera 3 "Porch" 50; example_camera 3 "Porch" 70])
                  tap_world)
  = Raise KeyError.
Proof. by vm_compute. Qed.

End Reconcile.

Section ReconcileClaims.
Import Asyn Core.

(** C4. In a reconciliation, a camera number present in both the live map
    and the snapshot keeps its camera object; that object takes name, size,
    connectivity, armed states and sensitivity from the snapshot and keeps
    the rest; and it emits ['status'] exactly when armed states, connectivity
    or sensitivity differed. *)
Theorem C4_refresh_merges_in_place
    (w : World) (sn sv : option string) (S : list Camera)
    (elem : Camera) (l : loc) (c0 : Camera) :
  wf w = true →
  NoDup (number <$> S) →
  elem ∈ S →
  ODict.get (number elem) (cameras w) = Some l →
  heap w !! l = Some c0 →
  ∃ w' mid,
    _configure (Document sn sv S) w = (Return tt, w') ∧
    log w' = log w ++ mid ∧
    ODict.get (number elem) (cameras w') = Some l ∧
    heap w' !! l = Some (merge c0 elem) ∧
    (status l ∈ mid ↔ changed c0 elem = true) ∧
    (changed c0 elem = true ↔
       armed c0 ≠ armed elem ∨ connected c0 ≠ connected elem
       ∨ sensitivity c0 ≠ sensitivity elem) ∧
    merge c0 elem
    = {| number := number c0; name := name elem; connected := connected elem;
         size := size elem; armed := armed elem;
         classifications := classifications c0; audio := audio c0;
         device := device c0; ptz_capabilities := ptz_capabilities c0;
         sensitivity := sensitivity elem; type_ := type_ c0;
         location := location c0 |}.
Proof.
  intros Hwf HndS He Hget Hl.
  destruct (_configure_spec w sn sv S Hwf HndS)
    as (w' & Δ & news & Hrun & Hwf' & Hcams & Hlog & HA & HB & HC & HD & HE & HF).
  eexists w', _. split_and!; [done | exact Hlog | | by apply (HC elem) | | apply changed_spec | done].
  - rewrite Hcams, get_app, get_filter_in, decide_True by by apply list_elem_of_fmap_2.
    by rewrite Hget.
  - split; [|intros Hch; apply elem_of_app; left; by apply (HF elem l c0)].
    intros [Hin|[Hin|Hin]%elem_of_app]%elem_of_app.
    + destruct (HE _ Hin) as [(l' & e' & [=] & _)|(l' & e' & c' & [= Heq] & He' & Hg' & Hc' & Hch)].
      subst l'. assert (e' = elem) as ->.
      { apply (NoDup_fmap_eq number S); [done..|]. exact (wf_inj w _ _ l Hwf Hg' Hget). }
      congruence.
    + apply list_elem_of_fmap in Hin as (kv & [=] & _).
    + apply list_elem_of_singleton in Hin. discriminate Hin.
Qed.

Lemma C4_witness :
  ∃ w' mid,
    _configure (Document (Some "spy") (Some "5.0") snapshot_234) live_123 = (Return tt, w') ∧
    log w' = log live_123 ++ mid ∧
    ODict.get 3 (cameras w') = Some 2%nat ∧
    heap w' !! 2%nat = Some (merge (example_camera 3 "Porch" 50) (example_camera 3 "Porch" 70)) ∧
    status 2%nat ∈ mid.
Proof.
  destruct (C4_refresh_merges_in_place live_123 (Some "spy") (Some "5.0") snapshot_234
              (example_camera 3 "Porch" 70) 2%nat (example_camera 3 "Porch" 50))
    as (w' & mid & H1 & H2 & H3 & H4 & H5 & _).
  - reflexivity.
  - apply (bool_decide_unpack _). by vm_compute.
  - right. left.
  - reflexivity.
  - reflexivity.
  - exists w', mid. split_and!; [done..|]. apply H5. reflexivity.
Defined.

(** C5. In a reconciliation every number found only in the snapshot enters
    the map as a new camera object announced by ['added'], every number
    found only in the live map leaves it after ['removed'] on its camera,
    nothing else is added or removed, and one ['ready'] with the resulting
    map closes the run; live {1,2,3} against snapshot {2,3,4} removes 1, adds
    4 and keeps the objects of 2 and 3. *)
Theorem C5_reconcile_added_removed_ready
    (w : World) (sn sv : option string) (S : list Camera) :
  wf w = true →
  NoDup (number <$> S) →
  (∃ w' mid,
    _configure (Document sn sv S) w = (Return tt, w') ∧
    log w' = log w ++ mid ++ [ready (cameras w')] ∧
    (∀ e, e ∈ mid → state (ctx e) ≠ "ready") ∧
    (∀ elem, elem ∈ S → ODict.get (number elem) (cameras w) = None →
       ∃ l, ODict.get (number elem) (cameras w') = Some l ∧ heap w' !! l = Some elem
            ∧ added l ∈ mid) ∧
    (∀ k l, ODict.get k (cameras w) = Some l → k ∉ number <$> S →
       ODict.get k (cameras w') = None ∧ removed l ∈ mid) ∧
    (∀ l, added l ∈ mid →
       ∃ elem, elem ∈ S ∧ ODict.get (number elem) (cameras w) = None
               ∧ ODict.get (number elem) (cameras w') = Some l) ∧
    (∀ l, removed l ∈ mid →
       ∃ k, ODict.get k (cameras w) = Some l ∧ k ∉ number <$> S)) ∧
  (∃ w', _configure (Document (Some "spy") (Some "5.0") snapshot_234) live_123
         = (Return tt, w') ∧
         cameras w' = [(2, 1%nat); (3, 2%nat); (4, 5%nat)] ∧
         heap w' !! 1%nat = Some (example_camera 2 "Garage" 50) ∧
         heap w' !! 2%nat = Some (example_camera 3 "Porch" 70) ∧
         heap w' !! 5%nat = Some (example_camera 4 "Yard" 50) ∧
         log w' = [status 2%nat; added 5%nat; removed 0%nat;
                   ready [(2, 1%nat); (3, 2%nat); (4, 5%nat)]]).
Proof.
  intros Hwf HndS. split; [|eexists; split_and!; by vm_compute].
  destruct (_configure_spec w sn sv S Hwf HndS)
    as (w' & Δ & news & Hrun & Hwf' & Hcams & Hlog & HA & HB & HC & HD & HE & HF).
  pose proof (proj1 (wf_spec w) Hwf) as [Hnd _].
  set (gone := filter (λ kv, kv.1 ∉ number <$> S) (cameras w)) in *.
  assert (Hnew : ∀ k l, ODict.get k (cameras w) = None →
            ODict.get k news = Some l → ODict.get k (cameras w') = Some l).
  { intros k l Hn Hg. rewrite Hcams, get_app, get_filter_in, Hn. by destruct (decide _). }
  exists w', (Δ ++ ((λ kv, removed kv.2) <$> gone)). split_and!.
  - done.
  - rewrite Hlog. by rewrite <- !app_assoc.
  - intros e [Hin|Hin]%elem_of_app.
    + by destruct (HE e Hin) as [(l & e' & -> & _)|(l & e' & c' & -> & _)].
    + by apply list_elem_of_fmap in Hin as (kv & -> & _).
  - intros elem He Hn. destruct (HA elem He Hn) as (l & Hg & Hl & Hadd).
    exists l. split_and!; [by apply Hnew | done | apply elem_of_app; by left].
  - intros k l Hg Hk. split.
    + rewrite Hcams, get_app, get_filter_in, decide_False by done.
      destruct (ODict.get k news) as [l'|] eqn:Hg'; [|done].
      destruct (HB k l' (get_elem_of _ _ _ Hg')) as (elem & He & <- & _).
      exfalso. apply Hk. by apply list_elem_of_fmap_2.
    + apply elem_of_app. right. apply list_elem_of_fmap. exists (k, l). split; [done|].
      apply list_elem_of_filter. split; [done | by apply get_elem_of].
  - intros l [Hin|Hin]%elem_of_app.
    + destruct (HE _ Hin) as [(l' & e' & [= <-] & He' & Hn & Hg)|(l' & e' & c' & [=] & _)].
      exists e'. split_and!; [done.. | by apply Hnew].
    + apply list_elem_of_fmap in Hin as (kv & [=] & _).
  - intros l [Hin|Hin]%elem_of_app.
    + by destruct (HE _ Hin) as [(l' & e' & [=] & _)|(l' & e' & c' & [=] & _)].
    + apply list_elem_of_fmap in Hin as ([k l'] & [= <-] & [Hk Hin]%list_elem_of_filter).
      exists k. split; [by apply elem_of_get | done].
Qed.

Lemma C5_witness :
  ∃ w' mid,
    _configure (Document None None [example_camera 4 "Yard" 50]) tap_world = (Return tt, w') ∧
    log w' = log tap_world ++ mid ++ [ready (cameras w')] ∧
    ODict.get 3 (cameras w') = None ∧ removed 0%nat ∈ mid.
Proof.
  destruct (C5_reconcile_added_removed_ready tap_world None None [example_camera 4 "Yard" 50])
    as [(w' & mid & H1 & H2 & _ & _ & H5 & _) _].
  - reflexivity.
  - apply (bool_decide_unpack _). by vm_compute.
  - exists w', mid. destruct (H5 3 0%nat) as [H6 H7]; [reflexivity | |].
    + apply (bool_decide_unpack _). by vm_compute.
    + by split_and!.
Defined.

(** C6. Reconciling again with the snapshot that produced the current
    state emits no ['added'], ['removed'] or ['status'], only the closing
    ['ready'], and leaves the camera map and every camera object as they were. *)
Theorem C6_reconcile_idempotent
    (w : World) (sn sv : option string) (S : list Camera) :
  wf w = true →
  NoDup (number <$> S) →
  ∃ w1 w2,
    _configure (Document sn sv S) w = (Return tt, w1) ∧
    _configure (Document sn sv S) w1 = (Return tt, w2) ∧
    log w2 = log w1 ++ [ready (cameras w1)] ∧
    cameras w2 = cameras w1 ∧
    (∀ l c, heap w1 !! l = Some c → heap w2 !! l = Some c).
Proof.
  intros Hwf HndS.
  destruct (_configure_spec w sn sv S Hwf HndS) as (w1 & _ & _ & Hrun1 & _).
  destruct (_configure_in_step w sn sv S w1 Hwf HndS Hrun1) as (Hwf1 & Hkeys & Hstep).
  destruct (_configure_spec w1 sn sv S Hwf1 HndS)
    as (w2 & Δ & news & Hrun2 & Hwf2 & Hcams & Hlog & HA & HB & HC & HD & HE & HF).
  assert (Hknown : ∀ elem, elem ∈ S → ODict.get (number elem) (cameras w1) ≠ None).
  { intros elem He. destruct (Hstep elem He) as (l & c & -> & _). done. }
  assert (news = []) as ->.
  { destruct news as [|[k l] news]; [done|]. exfalso.
    destruct (HB k l) as (elem & He & <- & Hn); [left|]. by apply (Hknown elem). }
  assert (Δ = []) as ->.
  { destruct Δ as [|e Δ]; [done|]. exfalso.
    destruct (HE e) as [(l & elem & _ & He & Hn & _)|(l & elem & c & _ & He & Hg & Hc & Hch)];
      [left | by apply (Hknown elem) |].
    destruct (Hstep elem He) as (l' & c' & Hg' & Hc' & _ & Hch'). congruence. }
  assert (Hsame : cameras w2 = cameras w1).
  { rewrite Hcams, app_nil_r. apply filter_all, Forall_forall. exact Hkeys. }
  exists w1, w2. split_and!; [done | done | | done |].
  - rewrite Hlog, Hsame. rewrite filter_none; [done|].
    apply Forall_forall. intros kv Hkv Hno. by apply Hno, Hkeys.
  - intros l c Hc.
    destruct (decide (Exists (λ elem, ODict.get (number elem) (cameras w1) = Some l) S))
      as [Hex|Hno].
    + apply Exists_exists in Hex as (elem & He & Hg).
      destruct (Hstep elem He) as (l' & c' & Hg' & Hc' & Hm & _).
      rewrite (HC elem l c He Hg Hc). congruence.
    + apply HD; [done|]. intros elem He Hg. apply Hno, Exists_exists. by exists elem.
Qed.

Lemma C6_witness :
  ∃ w1 w2,
    _configure (Document (Some "spy") (Some "5.0") snapshot_234) live_123 = (Return tt, w1) ∧
    _configure (Document (Some "spy") (Some "5.0") snapshot_234) w1 = (Return tt, w2) ∧
    log w2 = log w1 ++ [ready (cameras w1)] ∧
    cameras w2 = cameras w1.
Proof.
  destruct (C6_reconcile_idempotent live_123 (Some "spy") (Some "5.0") snapshot_234)
    as (w1 & w2 & H1 & H2 & H3 & H4 & _).
  - reflexivity.
  - apply (bool_decide_unpack _). by vm_compute.
  - exists w1, w2. by split_and!.
Defined.

End ReconcileClaims.

(** * Further properties of the code *)

(** ** HeaderDict: canonical names, accumulation, lookup *)

Section HeaderDictMore.
Import HeaderDict.

Lemma upper_ascii_dash (c : ascii) :
  Ascii.eqb (upper_ascii c) "-" = Ascii.eqb c "-".
Proof. by destruct c as [[] [] [] [] [] [] [] []]. Qed.

Lemma upper_ascii_idemp (c : ascii) : upper_ascii (upper_ascii c) = upper_ascii c.
Proof. by destruct c as [[] [] [] [] [] [] [] []]. Qed.

Lemma capitalize_idemp (s : string) : capitalize (capitalize s) = capitalize s.
Proof. destruct s as [|c s]; simpl; [done|]. by rewrite upper_ascii_idemp, lower_idemp. Qed.

(** A string without [-] is its own single segment, and conversely. *)
Lemma split_single_cons (c : ascii) (s : string) :
  split "-" (String c s) = [String c s] ↔ Ascii.eqb c "-" = false ∧ split "-" s = [s].
Proof.
  simpl. destruct (Ascii.eqb c "-") eqn:Hc.
  - split; [intros [=] | by intros [? _]].
  - pose proof (split_nonempty "-" s) as Hne.
    destruct (split "-" s) as [|y ys]; [done|]. split.
    + intros [= -> ->]. done.
    + intros [_ [= -> ->]]. done.
Qed.

Lemma split_segments (s : string) :
  Forall (λ x, split "-" x = [x]) (split "-" s).
Proof.
  induction s as [|c s IH]; simpl; [by repeat constructor|].
  destruct (Ascii.eqb c "-") eqn:Hc; [by constructor|].
  pose proof (split_nonempty "-" s) as Hne.
  destruct (split "-" s) as [|y ys]; [done|].
  apply Forall_cons in IH as [Hy Hys]. constructor; [|done].
  by apply split_single_cons.
Qed.

Lemma split_app_dash (x t : string) :
  split "-" x = [x] → split "-" (x +:+ "-" +:+ t) = x :: split "-" t.
Proof.
  induction x as [|c x IH]; [done|].
  intros [Hc Hx]%split_single_cons. simpl.
  by rewrite Hc, (IH Hx).
Qed.

Lemma split_join (l : list string) :
  l ≠ [] → Forall (λ x, split "-" x = [x]) l → split "-" (join "-" l) = l.
Proof.
  induction l as [|x [|y l] IH]; intros Hne Hall; [done | |].
  - by apply Forall_cons in Hall as [Hx _].
  - apply Forall_cons in Hall as [Hx Hall].
    change (join "-" (x :: y :: l)) with (x +:+ "-" +:+ join "-" (y :: l)).
    rewrite split_app_dash by done. by rewrite IH.
Qed.

Lemma capitalize_segment (x : string) :
  split "-" x = [x] → split "-" (capitalize x) = [capitalize x].
Proof.
  destruct x as [|c x]; [done|].
  intros [Hc Hx]%split_single_cons. unfold capitalize.
  apply split_single_cons. split; [by rewrite upper_ascii_dash|].
  by rewrite split_lower, Hx.
Qed.

(** X1. The canonical form of a header name is a fixed point of [_key]. *)
Theorem X1_key_idempotent (name : string) : _key (_key name) = _key name.
Proof.
  unfold _key. rewrite split_join.
  - rewrite map_map. f_equal. apply map_ext. intros x. apply capitalize_idemp.
  - pose proof (split_nonempty "-" name). by destruct (split "-" name).
  - pose proof (split_segments name) as Hall.
    induction Hall as [|x l Hx Hl IH]; simpl; constructor; [|done].
    by apply capitalize_segment.
Qed.

(** X2. Adding values under spellings of one header name collects all of
    them under the canonical name, after what was there and in the order
    added; no other name is touched. *)
Theorem X2_add_collects_in_order (h : t) (name : string) (kvs : list (string * string)) :
  Forall (λ kv, lower kv.1 = lower name) kvs →
  let h' := foldl (λ acc kv, add kv.1 kv.2 acc) h kvs in
  stored h' (_key name) = stored h (_key name) ++ kvs.*2 ∧
  ∀ other, other ≠ _key name → stored h' other = stored h other.
Proof.
  intros Hall. revert h. induction Hall as [|[k v] kvs Hk Hall IH]; intros h; simpl.
  - by rewrite app_nil_r.
  - simpl in Hk. apply _key_case_insensitive in Hk.
    destruct (IH (add k v h)) as [IH1 IH2]. split.
    + rewrite IH1, <- Hk, stored_add. by rewrite <- app_assoc.
    + intros other Hne. rewrite IH2 by done. apply stored_add_ne. by rewrite Hk.
Qed.

Lemma X2_witness :
  stored (add "CONTENT-type" "b" (add "content-type" "a" ∅)) "Content-Type" = ["a"; "b"].
Proof.
  exact (proj1 (X2_add_collects_in_order ∅ "Content-Type"
                  [("content-type", "a"); ("CONTENT-type", "b")]
                  ltac:(repeat constructor))).
Defined.

(** X3. A value just added is found again by [match] with that value as
    spec, under any spelling of the name: [match] returns a stored value
    that satisfies the rule, and the added value itself when the name was
    new. *)
Theorem X3_add_then_match (h : t) (name name' value : string) :
  lower name' = lower name →
  (∃ v, match_ (add name value h) name' (Some value) = Return (Some v)
        ∧ v ∈ stored (add name value h) (_key name)
        ∧ semicolon_prefix_or_exact v value) ∧
  (h !! _key name = None →
   match_ (add name value h) name' (Some value) = Return (Some value)).
Proof.
  intros Hk. apply _key_case_insensitive in Hk.
  destruct (match_spec (add name value h) name' value) as (_ & H2 & H3).
  rewrite Hk in H2, H3. split.
  - destruct H3 as [v Hv].
    + exists value. split; [|by left]. rewrite stored_add. apply elem_of_app. right. left.
    + exists v. split; [done|]. by apply H2.
  - intros Hnew. unfold match_, add. rewrite Hk, Hnew, lookup_insert_eq.
    unfold _matches. cbn [obind]. by rewrite String.eqb_refl.
Qed.

Lemma X3_witness :
  match_ (add "accept-encoding" "gzip" ∅) "Accept-Encoding" (Some "gzip") = Return (Some "gzip").
Proof.
  exact (proj2 (X3_add_then_match ∅ "accept-encoding" "Accept-Encoding" "gzip" eq_refl)
               eq_refl).
Defined.

End HeaderDictMore.

(** ** Request: a whole reply *)

Section ReplyDelivery.
Import HeaderDict Asyn Http Wire.

Lemma deliver_app (evs1 evs2 : list (Context * list Value)) (r : Request) :
  deliver (evs1 ++ evs2) r =
  match deliver evs1 r with
  | (Return _, r') => deliver evs2 r'
  | (Raise e, r') => (Raise e, r')
  end.
Proof.
  revert r. induction evs1 as [|[c a] evs1 IH]; intros r; [done|].
  cbn [app deliver]. destruct (incoming c a r) as [[[]|e] r']; [apply IH | done].
Qed.

(** Header lines only fill [h_reply], by assignment, in the order received. *)
Lemma deliver_header_lines (hs : list (string * string)) (r : Request) :
  deliver ((λ kv, header_line kv.1 kv.2) <$> hs) r
  = (Return tt, set_h_reply (foldl (λ h kv, setitem kv.1 kv.2 h) (h_reply r) hs) r).
Proof.
  revert r. induction hs as [|[k v] hs IH]; intros r.
  - by destruct r.
  - cbn [fmap list_fmap deliver header_line fst snd].
    replace (incoming _ _ r)
      with (Return tt, set_h_reply (setitem k v (h_reply r)) r) by reflexivity.
    by rewrite IH.
Qed.

Lemma _prepare_body_frame (r : Request) :
  ∃ r', _prepare_body r = (Return tt, r') ∧
        Http.scan r' = None ∧ body_reply r' = Some [] ∧
        h_reply r' = h_reply r ∧ callouts r' = callouts r ∧ closed r' = closed r ∧
        n_status r' = n_status r.
Proof.
  destruct (matches_spec (h_reply r) "Transfer-Encoding" "chunked") as (te & Hte & _); [done|].
  destruct (matches_spec (h_reply r) "Content-Encoding" "gzip") as (ce & Hce & _); [done|].
  unfold _prepare_body.
  change (h_reply (set_body_reply (Some []) (set_scan None r))) with (h_reply r).
  rewrite Hte.
  assert (Hh : ∀ r0, h_reply (if te then insert_filter ChunkedCoder r0 else r0) = h_reply r0)
    by (intros; by destruct te).
  rewrite Hh.
  change (h_reply (set_body_reply (Some []) (set_scan None r))) with (h_reply r).
  rewrite Hce. eexists. split; [done|]. by destruct te, ce.
Qed.

(** Raw chunks are appended to the body, and nothing is called out. *)
Lemma deliver_raw (bs : list (list Byte.byte)) (r : Request) (b0 : list Byte.byte) :
  Http.scan r = None → body_reply r = Some b0 →
  deliver (raw <$> bs) r = (Return tt, set_body_reply (Some (b0 ++ concat bs)) r).
Proof.
  revert r b0. induction bs as [|b bs IH]; intros r b0 Hscan Hbody.
  - cbn [fmap list_fmap deliver concat]. rewrite app_nil_r. destruct r. simpl in *.
    by rewrite Hbody.
  - cbn [fmap list_fmap deliver raw concat].
    replace (incoming (in_state "RAW") [VBytes b] r)
      with (Return tt, set_body_reply (Some (b0 ++ b)) r).
    2: { unfold incoming. cbn [error state in_state]. rewrite Hscan, Hbody. done. }
    rewrite (IH _ (b0 ++ b)) by done. by rewrite <- app_assoc.
Qed.

(** X4. A reply that arrives as status line, header lines, blank line, body
    chunks and end of stream produces exactly three callouts, in this
    order: the status with the status code, ['headers'] with the header
    map, ['body'] with the chunks joined in order; the request ends closed. *)
Theorem X4_reply_delivered_in_three_callouts
    (url p n v : string) (hs : list (string * string)) (bs : list (list Byte.byte)) :
  ∃ r, deliver (status_line p n v :: ((λ kv, header_line kv.1 kv.2) <$> hs)
                ++ end_headers :: (raw <$> bs) ++ [end_of_stream])
               (Http.new url) = (Return tt, r) ∧
       callouts r = [ (scanned "status", [VStr n]);
                      (in_state "headers", [VHeaders (h_reply r)]);
                      (in_state "body", [VBytes (concat bs)]) ] ∧
       h_reply r = foldl (λ h kv, setitem kv.1 kv.2 h) ∅ hs ∧
       body_reply r = Some (concat bs) ∧
       n_status r = Some n ∧
       closed r = true.
Proof.
  cbn [deliver status_line].
  replace (incoming (scanned "status") [VStr p; VStr n; VStr v] (Http.new url))
    with (Return tt, callout (scanned "status") [VStr n]
                       (set_status (Some p) (Some n) (Some v) (Http.new url)))
    by reflexivity.
  rewrite deliver_app, deliver_header_lines.
  set (r1 := set_h_reply _ _).
  cbn [deliver end_headers].
  destruct (_prepare_body_frame r1) as (r2 & Hprep & Hscan & Hbody & Hh & Hc & Hcl & Hn).
  replace (incoming (scanned "end-headers") [] r1)
    with (Return tt, callout (in_state "headers") [VHeaders (h_reply r2)] r2).
  2: { unfold incoming. cbn [error state scanned String.eqb Ascii.eqb Bool.eqb
                            bool_decide is_Some_dec]. by rewrite Hprep. }
  set (r3 := callout _ _ r2).
  rewrite deliver_app. rewrite (deliver_raw bs r3 []) by done.
  set (r4 := set_body_reply _ r3).
  eexists. split; [reflexivity|].
  cbn. rewrite Hc, Hh. by split_and!.
Qed.

(** X5. When the stream ends before the blank line that closes the headers,
    the request is closed and the end-of-stream context itself is called
    out; no ['headers'] and no ['body'] callout is made. *)
Theorem X5_end_of_stream_in_headers
    (url p n v : string) (hs : list (string * string)) :
  ∃ r, deliver (status_line p n v :: ((λ kv, header_line kv.1 kv.2) <$> hs)
                ++ [end_of_stream])
               (Http.new url) = (Return tt, r) ∧
       callouts r = [ (scanned "status", [VStr n]); (in_state "END", []) ] ∧
       body_reply r = None ∧
       closed r = true.
Proof.
  cbn [deliver status_line].
  replace (incoming (scanned "status") [VStr p; VStr n; VStr v] (Http.new url))
    with (Return tt, callout (scanned "status") [VStr n]
                       (set_status (Some p) (Some n) (Some v) (Http.new url)))
    by reflexivity.
  rewrite deliver_app, deliver_header_lines.
  eexists. split; [reflexivity|]. by split_and!.
Qed.

End ReplyDelivery.

(** ** motions and classify *)

Section MotionsMore.
Import Asyn Core.

Lemma omap_ext_elem {A B} (f g : A → option B) (l : list A) :
  (∀ x, x ∈ l → f x = g x) → omap f l = omap g l.
Proof.
  induction l as [|x l IH]; intros Hext; [done|]. cbn [omap list_omap].
  rewrite (Hext x) by left. rewrite IH; [done|]. intros y Hy. apply Hext. by right.
Qed.

Lemma named_by_bits_listed (codes : Z) (name : string) :
  named_by_bits codes name → name ∈ MOTION_CODES.*2.
Proof. intros (code & Hin & _). apply list_elem_of_fmap. by exists (code, name). Qed.

(** X6. Whatever the bitmask, the reason set is never empty and holds only
    names of the table. *)
Theorem X6_motions_nonempty_and_listed (codes : Z) :
  motions codes ≠ ∅ ∧ ∀ name, name ∈ motions codes → name ∈ MOTION_CODES.*2.
Proof.
  split.
  - unfold motions. destruct (motion_names codes) as [|n ns]; set_solver.
  - intros name [Hn|[-> _]]%elem_of_motions; [by eapply named_by_bits_listed|].
    apply list_elem_of_fmap. exists (1, "motion"). split; [done | left].
Qed.

(** X7. Only the nine listed bits count: bits from 512 up are ignored. *)
Theorem X7_motions_ignores_unlisted_bits (codes : Z) :
  motions codes = motions (Z.land codes 511).
Proof.
  assert (Hnames : motion_names codes = motion_names (Z.land codes 511)).
  { unfold motion_names. apply omap_ext_elem. intros code Hin.
    assert (Hc : Z.land code 511 = code).
    { cbn in Hin. set_unfold. by destruct_or!; subst. }
    by rewrite (Z.land_comm codes), Z.land_assoc, Hc. }
  unfold motions. by rewrite Hnames.
Qed.

Lemma named_by_bits_lor (a b : Z) (name : string) :
  named_by_bits (Z.lor a b) name ↔ named_by_bits a name ∨ named_by_bits b name.
Proof.
  unfold named_by_bits. split.
  - intros (code & Hin & Hbit).
    rewrite Z.land_lor_distr_r in Hbit.
    destruct (decide (Z.land code a = 0)) as [Ha|Ha]; [|left; by exists code].
    right. exists code. split; [done|]. intros Hb. apply Hbit.
    rewrite Ha, Hb. done.
  - intros [(code & Hin & Hbit)|(code & Hin & Hbit)]; exists code; (split; [done|]);
      rewrite Z.land_lor_distr_r; intros [? ?]%Z.lor_eq_0_iff; done.
Qed.

(** X8. Reasons of two bitmasks that each name at least one listed reason
    add up: the reasons of their bitwise or are the union of their reasons. *)
Theorem X8_motions_of_or (a b : Z) :
  (∃ name, named_by_bits a name) →
  (∃ name, named_by_bits b name) →
  motions (Z.lor a b) = motions a ∪ motions b.
Proof.
  intros [na Ha] [nb Hb]. apply set_eq. intros name.
  rewrite elem_of_union, !elem_of_motions, named_by_bits_lor. split.
  - intros [[?|?]|[_ Hno]]; [left; by left | right; by left |].
    exfalso. apply (Hno na), named_by_bits_lor. by left.
  - intros [[?|[_ Hno]]|[?|[_ Hno]]]; [left; by left | | left; by right |].
    + by destruct (Hno na).
    + by destruct (Hno nb).
Qed.

Lemma X8_witness : motions (Z.lor 1 8) = motions 1 ∪ motions 8.
Proof.
  apply X8_motions_of_or.
  - exists "motion", 1. split; [left | done].
  - exists "camera", 8. split; [set_solver | done].
Defined.




End MotionsMore.

(** ** What the event tap and the reconciliation leave alone *)

Section Frames.
Import Asyn Core More.

Lemma frames_bind {A B X} (f : World → X) (m : M A) (k : A → M B) :
  frames f m → (∀ a, frames f (k a)) → frames f (bind m k).
Proof.
  intros Hm Hk w. unfold bind. specialize (Hm w).
  destruct (m w) as [[a|e] w1]; [|done]. simpl in Hm. by rewrite Hk.
Qed.

Lemma frames_pure {A X} (f : World → X) (m : M A) :
  (∀ w, (m w).2 = w) → frames f m.
Proof. intros Hm w. by rewrite Hm. Qed.

Lemma frames_assign {X} (f : World → X) l (g : Camera → Camera) :
  (∀ h w, f (set_heap h w) = f w) → frames f (assign l g).
Proof.
  intros Hf w. unfold assign, bind, deref, modify.
  destruct (heap w !! l); simpl; [apply Hf | done].
Qed.

Lemma frames_callout {X} (f : World → X) src c a :
  (∀ l w, f (set_log l w) = f w) → frames f (callout src c a).
Proof. intros Hf w. apply Hf. Qed.

Lemma frames_update {X} (f : World → X) :
  (∀ r w, f (set_requests r w) = f w) → frames f update.
Proof. intros Hf w. apply Hf. Qed.

Lemma frames_refresh {X} (f : World → X) self upd :
  (∀ h w, f (set_heap h w) = f w) → (∀ l w, f (set_log l w) = f w) →
  frames f (_refresh self upd).
Proof.
  intros Hh Hl. unfold _refresh.
  assert (Hd : ∀ l, frames f (deref l)).
  { intros l w. unfold deref. by destruct (heap w !! l). }
  apply frames_bind; [done|]. intros s. apply frames_bind; [done|]. intros u.
  apply frames_bind; [by apply frames_assign|]. intros _.
  destruct (changed s u); [by apply frames_callout | by apply frames_pure].
Qed.

Lemma frames_event_tap {X} (f : World → X) self c a :
  (∀ h w, f (set_heap h w) = f w) → (∀ l w, f (set_log l w) = f w) →
  (∀ r w, f (set_requests r w) = f w) →
  frames f (_event_tap self c a).
Proof.
  intros Hh Hl Hr.
  assert (Hlift : ∀ A (o : outcome A), frames f (lift o)) by (intros; by apply frames_pure).
  unfold _event_tap.
  repeat case_match;
    repeat first [ apply frames_callout; done | apply Hlift | apply frames_update; done
                 | apply frames_assign; done
                 | apply frames_bind; [|intros ?] ].
Qed.

Lemma frames_configure_cameras {X} (f : World → X) S : ∀ old,
  (∀ h w, f (set_heap h w) = f w) → (∀ d w, f (set_cameras d w) = f w) →
  (∀ l w, f (set_log l w) = f w) →
  frames f (configure_cameras S old).
Proof.
  induction S as [|elem S IH]; intros old Hh Hc Hl; [by apply frames_pure|].
  cbn [configure_cameras].
  apply frames_bind; [intros w; apply Hh|]. intros camera.
  apply frames_bind; [by apply frames_pure|]. intros cams.
  destruct (ODict.get (number elem) cams).
  - apply frames_bind; [by apply frames_refresh|]. intros _.
    apply frames_bind; [by apply frames_pure|]. intros old'. by apply IH.
  - apply frames_bind; [intros w; apply Hc|]. intros _.
    apply frames_bind; [by apply frames_callout|]. intros _. by apply IH.
Qed.

Lemma frames_remove_cameras {X} (f : World → X) (old : ODict.t loc) :
  (∀ d w, f (set_cameras d w) = f w) → (∀ l w, f (set_log l w) = f w) →
  frames f (remove_cameras old).
Proof.
  intros Hc Hl. induction old as [|[cnum camera] old IH]; [by apply frames_pure|].
  cbn [remove_cameras].
  apply frames_bind; [by apply frames_callout|]. intros _.
  apply frames_bind; [by apply frames_pure|]. intros cams.
  apply frames_bind; [by apply frames_pure|]. intros cams'.
  apply frames_bind; [intros w; apply Hc | done].
Qed.

Lemma frames_update_camera_set {X} (f : World → X) S :
  (∀ h w, f (set_heap h w) = f w) → (∀ d w, f (set_cameras d w) = f w) →
  (∀ l w, f (set_log l w) = f w) →
  frames f (update_camera_set S).
Proof.
  intros Hh Hc Hl. unfold update_camera_set.
  apply frames_bind; [by apply frames_pure|]. intros old.
  apply frames_bind; [by apply frames_configure_cameras|]. intros old'.
  apply frames_bind; [by apply frames_remove_cameras|]. intros _.
  apply frames_bind; [by apply frames_pure|]. intros cams. by apply frames_callout.
Qed.

(** X10. Which events end the tap: an error context and a ['headers']
    answer whose status is not 200 close the tap and leave none; ['body']
    replaces it by a new one; every other event, whatever its arguments and
    whether handling it returns or raises, leaves the tap as it is. *)
Theorem X10_what_ends_the_tap (w : World) (req : loc) (c : Context) (a : list Value) :
  let w' := (reply req c a w).2 in
  match error c with
  | Some _ => _events w' = None
  | None =>
      if String.eqb (state c) "headers" then
        if bool_decide (requests w !! req ≫= Http.n_status = Some "200")
        then _events w' = _events w
        else _events w' = None
      else if String.eqb (state c) "body" then
        _events w' = Some (length (requests w))
      else _events w' = _events w
  end.
Proof.
  assert (Hclose : ∀ w0, _events (_close_events w0).2 = None
                         ∧ length (requests (_close_events w0).2) = length (requests w0)
                         ∧ (_close_events w0).1 = Return tt).
  { intros w0. unfold _close_events, bind, gets.
    destruct (_events w0) eqn:He; simpl; [|done]. by rewrite length_alter. }
  cbn zeta. unfold reply.
  destruct (error c) as [e|] eqn:Herr; simpl.
  { unfold bind. destruct (Hclose w) as (H1 & _ & H3).
    destruct (_close_events w) as [[[]|?] w1]; simpl in *; done. }
  destruct (String.eqb (state c) "headers") eqn:Hh.
  { unfold bind, gets, callout, modify. simpl.
    case_bool_decide as Hn; simpl; [done|].
    match goal with
    | |- context [_close_events ?w0] =>
        destruct (Hclose w0) as (H1 & _ & H3);
        destruct (_close_events w0) as [[[]|?] w1]
    end; simpl in *; done. }
  destruct (String.eqb (state c) "body") eqn:Hb.
  { unfold bind. destruct (Hclose w) as (H1 & H2 & H3).
    destruct (_close_events w) as [[[]|?] w1]; simpl in *; [|done].
    by rewrite H2. }
  assert (Hlift : ∀ A (o : outcome A), frames _events (lift o))
    by (intros; by apply frames_pure).
  assert (Hframe : frames _events
    (if bool_decide (Asyn.scan c = Some ScanEventTap)
     then if String.eqb (state c) "unknown"
          then match a with
               | [VStr line] =>
                   callout OnSpy (in_error (SpyError ("unknown event tap (" +:+ line +:+ ")"))) []
               | _ => lift (Raise TypeError)
               end
          else if String.eqb (state c) "change" then update
          else bind (lift (arg a 0)) (λ ts,
               bind (lift (arg a 1)) (λ a1, bind (lift (int_value a1)) (λ seq,
               bind (lift (arg a 2)) (λ a2, bind (lift (int_value a2)) (λ cnum,
               bind (gets cameras) (λ cams,
                 match ODict.get cnum cams with
                 | None => update
                 | Some camera => _event_tap camera (set_spy ts seq c) (drop 3 a)
                 end))))))
     else ret tt)).
  { repeat case_match;
      repeat first [ apply frames_callout; done | apply Hlift | apply frames_update; done
                   | apply frames_event_tap; done
                   | apply frames_pure; done
                   | apply frames_bind; [|intros ?] | case_match ]. }
  apply Hframe.
Qed.

(** X11. Where a closed tap comes back: [_configure] of a document starts a
    new tap and asks for the two lists when there is no tap, and makes no
    request at all when there is one; this holds however the camera part
    of the document fares. *)
Theorem X11_configure_reopens_closed_tap
    (w : World) (sn sv : option string) (S : list Camera) :
  let w' := (_configure (Document sn sv S) w).2 in
  match _events w with
  | Some _ => requests w' = requests w ∧ _events w' = _events w
  | None =>
      requests w' = requests w ++ [ Http.new "/++eventStream?version=2";
                                    Http.new "/++scripts"; Http.new "/++sounds" ] ∧
      _events w' = Some (length (requests w))
  end.
Proof.
  cbn zeta.
  assert (Hr : frames requests (update_camera_set S)) by by apply frames_update_camera_set.
  assert (He : frames _events (update_camera_set S)) by by apply frames_update_camera_set.
  unfold _configure, bind, modify, gets. cbn [_events set_server].
  destruct (_events w) eqn:Hev; simpl.
  - rewrite Hr, He. done.
  - rewrite Hr, He. simpl. by rewrite <- !app_assoc.
Qed.

End Frames.

(** ** Reconciliation: repeated numbers, the resulting map, the invariant *)

Section ReconcileMore.
Import Asyn Core More.

Lemma configure_cameras_app (S1 S2 : list Camera) : ∀ (old : ODict.t loc) w,
  configure_cameras (S1 ++ S2) old w =
  match configure_cameras S1 old w with
  | (Return old', w') => configure_cameras S2 old' w'
  | (Raise e, w') => (Raise e, w')
  end.
Proof.
  induction S1 as [|elem S1 IH]; intros old w; [done|].
  cbn [app configure_cameras].
  unfold bind, new_camera, gets, lift, modify, callout. cbn [cameras set_heap].
  destruct (ODict.get (number elem) (cameras w)) as [existing|].
  - destruct (_refresh existing (length (heap w)) _) as [[[]|e] w1]; [|done].
    destruct (ODict.del (number elem) old) as [old'|e]; [apply IH | done].
  - apply IH.
Qed.

(** The first repetition in a list with repeated images. *)
Lemma first_repetition {A B} `{EqDecision B} (f : A → B) (xs : list A) :
  ¬ NoDup (f <$> xs) →
  ∃ xs1 x xs2, xs = xs1 ++ x :: xs2 ∧ NoDup (f <$> xs1) ∧ f x ∈ f <$> xs1.
Proof.
  induction xs as [|x xs IH] using rev_ind; intros Hdup.
  { destruct Hdup. constructor. }
  destruct (decide (NoDup (f <$> xs))) as [Hnd|Hnd].
  - exists xs, x, []. split_and!; [done..|].
    destruct (decide (f x ∈ f <$> xs)) as [|Hx]; [done|]. destruct Hdup.
    rewrite fmap_app. apply NoDup_app. split_and!; [done | | apply NoDup_singleton].
    intros y Hy Hin. simpl in Hin. apply list_elem_of_singleton in Hin. by subst.
  - destruct (IH Hnd) as (xs1 & y & xs2 & -> & H1 & H2).
    exists xs1, y, (xs2 ++ [x]). by rewrite <- app_assoc.
Qed.

Lemma _configure_repeated (w : World) (sn sv : option string) (S : list Camera) :
  wf w = true →
  ¬ NoDup (number <$> S) →
  ∃ w' Δ,
    _configure (Document sn sv S) w = (Raise KeyError, w') ∧
    wf w' = true ∧
    log w' = log w ++ Δ ∧
    (∀ e, e ∈ Δ → (∃ l, e = added l) ∨ (∃ l, e = status l)) ∧
    (∀ k l, ODict.get k (cameras w) = Some l → ODict.get k (cameras w') = Some l).
Proof.
  intros Hwf Hdup.
  destruct (first_repetition number S Hdup) as (S1 & e & S2 & -> & Hnd1 & He).
  destruct (_configure_prefix w sn sv (S1 ++ e :: S2)) as (w0 & -> & Hheap0 & Hcams0 & Hlog0).
  rewrite <- (wf_ext _ _ Hheap0 Hcams0) in Hwf.
  rewrite <- Hcams0, <- Hlog0. clear Hheap0 Hcams0 Hlog0 w. rename w0 into w.
  pose proof (proj1 (wf_spec w) Hwf) as [Hnd _].
  destruct (configure_cameras_spec S1 w (cameras w))
    as (w1 & Δ & news & Hrun & Hwf1 & Hcams1 & Hlog1 & HA & HB & _ & _ & HE & _);
    [done.. |].
  assert (∃ l, ODict.get (number e) (cameras w1) = Some l) as [l Hl].
  { apply list_elem_of_fmap in He as (elem & Heq & Helem). rewrite Heq, Hcams1, get_app.
    destruct (ODict.get (number elem) (cameras w)) as [l|] eqn:Hg; [by exists l|].
    destruct (HA elem Helem Hg) as (l & ? & _). by exists l. }
  destruct (wf_get _ _ _ Hwf1 Hl) as (c & Hc & _).
  unfold update_camera_set. unfold bind at 1, gets. unfold bind at 1.
  rewrite configure_cameras_app, Hrun, (configure_cameras_known _ _ _ _ _ _ Hl Hc).
  unfold ODict.del.
  assert (Hmem : ODict.mem (number e) (filter (λ kv, kv.1 ∉ number <$> S1) (cameras w)) = false).
  { apply not_true_is_false. intros [Hno _]%mem_true%keys_filter_notin. done. }
  rewrite Hmem.
  exists (refreshed e l c w1), (Δ ++ (if changed c e then [status l] else [])).
  split_and!; [done | by apply wf_refreshed | | |].
  - unfold refreshed. cbn [log set_log set_heap]. by rewrite Hlog1, app_assoc.
  - intros x [Hx|Hx]%elem_of_app.
    + destruct (HE x Hx) as [(l' & ? & -> & _)|(l' & ? & ? & -> & _)]; eauto.
    + destruct (changed c e); [|by apply elem_of_nil in Hx].
      apply list_elem_of_singleton in Hx. eauto.
  - intros k l' Hg. unfold refreshed. cbn [cameras set_log set_heap].
    by rewrite Hcams1, get_app, Hg.
Qed.

(** X12. A document that lists a camera number twice never gets through:
    [_configure] raises KeyError at the second listing; up to there cameras
    may have been added or refreshed, but no camera has been removed and
    no ['removed'] or ['ready'] has been called out. *)
Theorem X12_repeated_number_raises
    (w : World) (sn sv : option string) (S : list Camera) :
  wf w = true →
  ¬ NoDup (number <$> S) →
  ∃ w' Δ,
    _configure (Document sn sv S) w = (Raise KeyError, w') ∧
    log w' = log w ++ Δ ∧
    (∀ e, e ∈ Δ → (∃ l, e = added l) ∨ (∃ l, e = status l)) ∧
    (∀ k l, ODict.get k (cameras w) = Some l → ODict.get k (cameras w') = Some l).
Proof.
  intros Hwf Hdup.
  destruct (_configure_repeated w sn sv S Hwf Hdup) as (w' & Δ & ? & _ & ? & ? & ?).
  by exists w', Δ.
Qed.

Lemma X12_witness :
  ∃ w', _configure (Document None None
                      [example_camera 3 "Porch" 50; example_camera 3 "Porch" 70])
                   tap_world = (Raise KeyError, w')
        ∧ ODict.get 3 (cameras w') = Some 0%nat.
Proof.
  destruct (X12_repeated_number_raises tap_world None None
              [example_camera 3 "Porch" 50; example_camera 3 "Porch" 70])
    as (w' & Δ & Hrun & _ & _ & Hkeep).
  - reflexivity.
  - intros Hnd. apply (bool_decide_pack _) in Hnd. by vm_compute in Hnd.
  - exists w'. split; [done|]. by apply Hkeep.
Defined.

(** X13. After a reconciliation the camera map holds exactly the numbers
    of the document, once each: [find_camera] by number finds a camera
    precisely for these, and the run ends with ['ready'] carrying that map. *)
Theorem X13_map_is_the_document
    (w : World) (sn sv : option string) (S : list Camera) :
  wf w = true →
  NoDup (number <$> S) →
  ∃ w', _configure (Document sn sv S) w = (Return tt, w') ∧
        (∀ n, (∃ l, find_camera (inl n) w' = inr (Some l)) ↔ n ∈ number <$> S) ∧
        length (cameras w') = length S ∧
        last (log w') = Some (ready (cameras w')).
Proof.
  intros Hwf HndS.
  destruct (_configure_spec w sn sv S Hwf HndS) as (w' & Δ & news & Hrun & _ & _ & Hlog & _).
  destruct (_configure_in_step w sn sv S w' Hwf HndS Hrun) as (Hwf' & Hkeys & Hstep).
  pose proof (proj1 (wf_spec w') Hwf') as [Hnd' _].
  assert (Hiff : ∀ n, n ∈ ODict.keys (cameras w') ↔ n ∈ number <$> S).
  { intros n. split.
    - intros ([k l] & -> & Hin)%list_elem_of_fmap. by apply (Hkeys (k, l)).
    - intros (elem & -> & He)%list_elem_of_fmap.
      destruct (Hstep elem He) as (l & c & Hg & _). apply get_is_Some. by rewrite Hg. }
  exists w'. split_and!; [done | | |].
  - intros n. rewrite <- Hiff, <- get_is_Some. unfold find_camera. split.
    + intros [l [= Hl]]. by rewrite Hl.
    + intros [l Hl]. exists l. by rewrite Hl.
  - rewrite <- (length_fmap fst (cameras w')), <- (length_fmap number S).
    apply Permutation_length, NoDup_Permutation; done.
  - rewrite Hlog, !app_assoc. apply last_snoc.
Qed.

Lemma X13_witness :
  ∃ w', _configure (Document (Some "spy") (Some "5.0") snapshot_234) live_123 = (Return tt, w') ∧
        find_camera (inl 4) w' = inr (Some 5%nat) ∧ find_camera (inl 1) w' = inr None.
Proof.
  destruct (X13_map_is_the_document live_123 (Some "spy") (Some "5.0") snapshot_234)
    as (w' & Hrun & _).
  - reflexivity.
  - apply (bool_decide_unpack _). by vm_compute.
  - exists w'. split; [done|].
    assert (w' = (_configure (Document (Some "spy") (Some "5.0") snapshot_234) live_123).2)
      as -> by by rewrite Hrun.
    split; by vm_compute.
Defined.



End ReconcileMore.

(** ** Arming records of the event tap, and what the plugin shows *)

Section ArmingMore.
Import Asyn Core Plugin.

(** A record for a known camera reaches that camera's [_event_tap]. *)
Lemma reply_dispatch (w : World) (req : loc) (c : Context) (ts : Value)
    (seq cn : string) (rest : list Value) (s cnum : Z) (camera : loc) :
  error c = None → Asyn.scan c = Some ScanEventTap →
  state c ∈ camera_record_states →
  Py.int seq = Return s → Py.int cn = Return cnum →
  ODict.get cnum (cameras w) = Some camera →
  reply req c (ts :: VStr seq :: VStr cn :: rest) w
  = _event_tap camera (set_spy ts s c) rest w.
Proof.
  intros Herr Hscan Hstate Hseq Hcn Hget.
  unfold reply. rewrite Herr, Hscan.
  unfold camera_record_states in Hstate. set_unfold.
  destruct_or!; try done; rewrite Hstate; simpl;
    unfold bind, lift; simpl; rewrite Hseq, Hcn; simpl;
    unfold gets; by rewrite Hget.
Qed.

(** X15. An ARM_ or DISARM_ record whose mode is none of M, C, A (the rule
    accepts any word) raises KeyError in the known camera's handler and
    changes nothing: no arm state, no callout, no request. *)
Theorem X15_arm_with_unknown_mode_raises
    (w : World) (req : loc) (c : Context) (ts : Value) (seq cn mode : string)
    (s cnum : Z) (camera : loc) :
  error c = None → Asyn.scan c = Some ScanEventTap →
  state c = "arm" ∨ state c = "disarm" →
  Py.int seq = Return s → Py.int cn = Return cnum →
  ODict.get cnum (cameras w) = Some camera →
  ARM_REPORTS !! mode = None →
  reply req c [ts; VStr seq; VStr cn; VStr mode] w = (Raise KeyError, w).
Proof.
  intros Herr Hscan Hstate Hseq Hcn Hget Hmode.
  rewrite (reply_dispatch w req c ts seq cn [VStr mode] s cnum camera); try done.
  - unfold _event_tap. cbn [state set_spy].
    destruct Hstate as [-> | ->]; simpl; unfold bind, lift, subscript; simpl;
      by rewrite Hmode.
  - unfold camera_record_states. destruct Hstate as [-> | ->]; set_solver.
Qed.

Lemma X15_witness :
  reply 1%nat (tap_record "arm") [VStr "20260101120000"; VStr "7"; VStr "3"; VStr "X"] tap_world
  = (Raise KeyError, tap_world).
Proof.
  apply (X15_arm_with_unknown_mode_raises tap_world 1%nat (tap_record "arm")
           (VStr "20260101120000") "7" "3" "X" 7 3 0%nat);
    [reflexivity | reflexivity | by left | reflexivity..].
Defined.

(** The world after an arming record for camera [l] (holding [c0]). *)
Lemma arm_record (w : World) (c : Context) (rest : list Value) (l : loc) (c0 : Camera)
    (key : string) (b : bool) :
  heap w !! l = Some c0 →
  (bind (assign l (λ s, set_armed (<[key := b]> (armed s)) s))
        (λ _, callout (OnCamera l) c rest)) w
  = (Return tt,
     set_log (log w ++ [{| source := OnCamera l; ctx := c; args := rest |}])
       (set_heap (<[l := set_armed (<[key := b]> (armed c0)) c0]> (heap w)) w)).
Proof.
  intros Hl. unfold bind, assign, bind, deref, modify, callout, modify. by rewrite Hl.
Qed.

Lemma reply_active_passive (w : World) (req : loc) (ts : Value) (seq cn : string)
    (s cnum : Z) (l : loc) (c0 : Camera) (b : bool) :
  Py.int seq = Return s → Py.int cn = Return cnum →
  ODict.get cnum (cameras w) = Some l →
  heap w !! l = Some c0 →
  reply req (tap_record (if b then "active" else "passive")) [ts; VStr seq; VStr cn] w
  = (Return tt,
     set_log (log w ++ [{| source := OnCamera l;
                           ctx := set_spy ts s (tap_record (if b then "active" else "passive"));
                           args := [] |}])
       (set_heap (<[l := set_armed (<[ARM_MOTION := b]> (armed c0)) c0]> (heap w)) w)).
Proof.
  intros Hseq Hcn Hget Hl.
  rewrite (reply_dispatch w req _ ts seq cn [] s cnum l); try done.
  - destruct b; unfold _event_tap; cbn [state set_spy tap_record]; simpl;
      by rewrite (arm_record w _ _ l c0).
  - unfold camera_record_states. destruct b; set_solver.
Qed.

(** X16. The version-3 records ACTIVE and PASSIVE do to a known camera what
    ARM_M and DISARM_M do: they set its MotionCapture arm state to true or
    false, touch nothing else of any camera, and pass the record on to that
    camera's callout; none of them emits ['status']. *)
Theorem X16_active_is_arm_motion
    (w : World) (req : loc) (ts : Value) (seq cn : string) (s cnum : Z)
    (l : loc) (c0 : Camera) (b : bool) :
  Py.int seq = Return s → Py.int cn = Return cnum →
  ODict.get cnum (cameras w) = Some l →
  heap w !! l = Some c0 →
  let legacy := tap_record (if b then "active" else "passive") in
  let modern := tap_record (if b then "arm" else "disarm") in
  let armed_now := <[l := set_armed (<[ARM_MOTION := b]> (armed c0)) c0]> (heap w) in
  reply req legacy [ts; VStr seq; VStr cn] w
  = (Return tt,
     set_log (log w ++ [{| source := OnCamera l; ctx := set_spy ts s legacy; args := [] |}])
       (set_heap armed_now w)) ∧
  reply req modern [ts; VStr seq; VStr cn; VStr "M"] w
  = (Return tt,
     set_log (log w ++ [{| source := OnCamera l; ctx := set_spy ts s modern;
                           args := [VStr "M"] |}])
       (set_heap armed_now w)).
Proof.
  intros Hseq Hcn Hget Hl. cbn zeta. split.
  - by apply (reply_active_passive w req ts seq cn s cnum l c0 b).
  - rewrite (reply_dispatch w req _ ts seq cn [VStr "M"] s cnum l); try done.
    + destruct b; unfold _event_tap; cbn [state set_spy tap_record]; simpl;
        unfold bind at 1, lift; simpl; unfold bind at 1, lift, subscript;
        replace (ARM_REPORTS !! "M") with (Some ARM_MOTION) by reflexivity;
        by rewrite (arm_record w _ _ l c0).
    + unfold camera_record_states. destruct b; set_solver.
Qed.

Lemma X16_witness :
  heap (reply 1%nat (tap_record "passive") [VStr "20260101120000"; VStr "7"; VStr "3"]
              tap_world).2
  = heap (reply 1%nat (tap_record "disarm")
                [VStr "20260101120000"; VStr "7"; VStr "3"; VStr "M"] tap_world).2.
Proof.
  destruct (X16_active_is_arm_motion tap_world 1%nat (VStr "20260101120000") "7" "3" 7 3
              0%nat (example_camera 3 "Porch" 50) false eq_refl eq_refl eq_refl eq_refl)
    as [-> ->].
  reflexivity.
Defined.

(** X17. What the plugin shows for a camera follows the tap: after OFFLINE
    the state is "disconnected" whatever is armed; after ACTIVE or PASSIVE
    it is "active" or "passive" if the camera is connected and stays
    "disconnected" if it is not. *)
Theorem X17_plugin_state_follows_tap
    (w : World) (req : loc) (ts : Value) (seq cn : string) (s cnum : Z)
    (l : loc) (c0 : Camera) :
  Py.int seq = Return s → Py.int cn = Return cnum →
  ODict.get cnum (cameras w) = Some l →
  heap w !! l = Some c0 →
  _state ((reply req (tap_record "offline") [ts; VStr seq; VStr cn] w).2.(heap) !! l)
  = Return "disconnected" ∧
  ∀ b : bool,
    _state ((reply req (tap_record (if b then "active" else "passive"))
                   [ts; VStr seq; VStr cn] w).2.(heap) !! l)
    = Return (if connected c0 then (if b then "active" else "passive")
              else "disconnected").
Proof.
  intros Hseq Hcn Hget Hl.
  assert (Hlt : (l < length (heap w))%nat) by by eapply lookup_lt_Some.
  split.
  - rewrite (reply_dispatch w req _ ts seq cn [] s cnum l); try done.
    + unfold _event_tap. cbn [state set_spy tap_record]. simpl.
      unfold bind, update, _request, bind, ret, assign, bind, deref, modify, callout, modify.
      cbn [heap set_requests]. rewrite Hl. cbn [heap set_heap set_log snd].
      by rewrite list_lookup_insert_eq.
    + unfold camera_record_states. set_solver.
  - intros b.
    rewrite (reply_active_passive w req ts seq cn s cnum l c0 b) by done.
    cbn [heap set_heap set_log snd]. rewrite list_lookup_insert_eq by done.
    unfold _state. cbn [connected armed set_armed]. rewrite lookup_insert_eq.
    by destruct (connected c0), b.
Qed.

Lemma X17_witness :
  _state ((reply 1%nat (tap_record "offline") [VStr "20260101120000"; VStr "7"; VStr "3"]
                 tap_world).2.(heap) !! 0%nat)
  = Return "disconnected".
Proof.
  exact (proj1 (X17_plugin_state_follows_tap tap_world 1%nat (VStr "20260101120000")
                  "7" "3" 7 3 0%nat (example_camera 3 "Porch" 50)
                  eq_refl eq_refl eq_refl eq_refl)).
Defined.

End ArmingMore.

(** ** plugin.py: CameraMotion.matches *)

Section MatchesMore.
Import Core Plugin.
Context {T : Type} (is_zero : T → bool) (too_soon : T → Z → T → bool).

(** X18. The throttle mark moves only with a delivered event: when
    [matches] answers True the mark is the clock reading of that call, and
    when it answers False or raises, the trigger is exactly as before. *)
Theorem X18_throttle_mark_moves_only_on_match
    (self : CameraMotion) (cam : Z) (ty : string) (args : list MatchArg) (now : T) :
  let '(o, self') := Plugin.matches is_zero too_soon self cam ty args now in
  (o = Return true → self' = set_last_motion (Some now) self) ∧
  (o ≠ Return true → self' = self).
Proof.
  unfold Plugin.matches, throttled.
  repeat case_match; simplify_eq; split; intros; done.
Qed.

Lemma matches_first_event (self : CameraMotion) (now : T) :
  last_motion self = None →
  throttled is_zero too_soon self now = (Return true, set_last_motion (Some now) self).
Proof. intros Hl. unfold throttled. by rewrite Hl. Qed.

(** X19. For a trigger on raw recognition that has not fired yet, offered
    the strengths of a CLASSIFY record: the answer is whether the strength
    of the configured type (0 when the record does not list it) reaches the
    threshold, and the negate option inverts exactly that answer. *)
Theorem X19_recognition_threshold_and_negate
    (self : CameraMotion) (cam : Z) (strengths : gmap string Z) (now : T) :
  (camera self = None ∨ camera self = Some cam) →
  type self = "raw" →
  recognition_type self ≠ "raw" →
  last_motion self = None →
  (Plugin.matches is_zero too_soon self cam "raw" [Recognized strengths] now).1
  = Return (xorb (bool_decide (recognition_threshold self
                               ≤ default 0 (strengths !! recognition_type self)))
                 (recognition_negate self)).
Proof.
  intros Hcam Hty Hrt Hlast. unfold Plugin.matches.
  assert (Hc : match camera self with Some c => bool_decide (c ≠ cam) | None => false end
               = false).
  { destruct Hcam as [-> | ->]; [done|]. by rewrite bool_decide_eq_false_2 by tauto. }
  rewrite Hc, Hty. simpl.
  assert (Hne : String.eqb (recognition_type self) "raw" = false).
  { by apply String.eqb_neq. }
  rewrite Hne. simpl.
  rewrite matches_first_event by done.
  by destruct (bool_decide _), (recognition_negate self).
Qed.

(** X20. For a trigger on recording or action reasons that has not fired
    yet, offered the reason set of a TRIGGER record: without a reason
    filter, or with the filter "any", every record matches; with a filter
    [r] it matches exactly when [r] is among the reasons, so a filter on
    "motion" also takes the records whose bitmask sets no listed bit. *)
Theorem X20_reason_filter_on_trigger
    (self : CameraMotion) (cam : Z) (ty : string) (codes : Z) (now : T) :
  (camera self = None ∨ camera self = Some cam) →
  ty = "recording" ∨ ty = "action" →
  type self = ty →
  last_motion self = None →
  (Plugin.matches is_zero too_soon self cam ty [Reasons (motions codes)] now).1
  = Return (match trigger_reason self with
            | Some r => String.eqb r "" || String.eqb r "any"
                        || bool_decide (r ∈ motions codes)
            | None => true
            end) ∧
  (trigger_reason self = Some "motion" →
   (∀ name, ¬ named_by_bits codes name) →
   (Plugin.matches is_zero too_soon self cam ty [Reasons (motions codes)] now).1 = Return true).
Proof.
  intros Hcam Hty Htype Hlast.
  assert (Hc : match camera self with Some c => bool_decide (c ≠ cam) | None => false end
               = false).
  { destruct Hcam as [-> | ->]; [done|]. by rewrite bool_decide_eq_false_2 by tauto. }
  assert (Hrun : (Plugin.matches is_zero too_soon self cam ty [Reasons (motions codes)] now).1
    = Return (match trigger_reason self with
              | Some r => String.eqb r "" || String.eqb r "any"
                          || bool_decide (r ∈ motions codes)
              | None => true
              end)).
  { unfold Plugin.matches. rewrite Hc, Htype, String.eqb_refl. cbn [negb].
    assert (Hrec : String.eqb ty "recording" || String.eqb ty "action" = true)
      by (by destruct Hty as [-> | ->]).
    rewrite Hrec. rewrite matches_first_event by done.
    destruct (trigger_reason self) as [r|]; [|done]. cbn [not_in].
    destruct (String.eqb r ""), (String.eqb r "any"); cbn [negb andb orb]; try done.
    destruct (decide (r ∈ motions codes)) as [Hin|Hin].
    - rewrite bool_decide_eq_false_2 by tauto. by rewrite bool_decide_eq_true_2.
    - rewrite bool_decide_eq_true_2 by done. by rewrite bool_decide_eq_false_2. }
  split; [done|].
  intros Hr Hnone. rewrite Hrun, Hr. cbn [String.eqb Ascii.eqb Bool.eqb orb].
  rewrite bool_decide_eq_true_2; [done|].
  apply elem_of_motions. by right.
Qed.

End MatchesMore.

Lemma X19_witness :
  (Plugin.matches (λ _ : Z, false) (λ last th now, bool_decide (now < last + th))
     {| Plugin.camera := None; Plugin.throttle := 10; Plugin.type := "raw";
        Plugin.trigger_reason := None; Plugin.recognition_type := "human";
        Plugin.recognition_threshold := 50; Plugin.recognition_negate := true;
        Plugin.last_motion := None |}
     7 "raw" [Plugin.Recognized {["human" := 85]}] 1000).1
  = Return false.
Proof.
  rewrite X19_recognition_threshold_and_negate;
    [reflexivity | by left | reflexivity | discriminate | reflexivity].
Defined.

Lemma X20_witness :
  (Plugin.matches (λ _ : Z, false) (λ last th now, bool_decide (now < last + th))
     {| Plugin.camera := Some 7; Plugin.throttle := 10; Plugin.type := "recording";
        Plugin.trigger_reason := Some "motion"; Plugin.recognition_type := "raw";
        Plugin.recognition_threshold := 0; Plugin.recognition_negate := false;
        Plugin.last_motion := None |}
     7 "recording" [Plugin.Reasons (Core.motions 0)] 1000).1
  = Return true.
Proof.
  apply X20_reason_filter_on_trigger;
    [by right | by left | reflexivity | reflexivity | reflexivity |].
  intros name (code & _ & Hbit). by rewrite Z.land_0_r in Hbit.
Defined.

(** ** Camera requests and the server's version *)

Section ControlMore.
Import Control More.

Lemma append_cons (c : ascii) (s t : string) : String c s +:+ t = String c (s +:+ t).
Proof. reflexivity. Qed.







(** X22. On a server of web version 4 or later [set_active(x)] sends the
    very request of [set_arm('MotionCapture', x)]; on an older server
    [set_arm] sends nothing and fails on the undefined name [error]; and
    every request a camera does send carries [cameraNum], the camera's own
    number. *)
Theorem X22_camera_requests (number : Z) (b : bool) (type : string) (level command : Asyn.Value) :
  set_active number true b = set_arm number true Core.ARM_MOTION b
  ∧ set_arm number false type b = inl (NameError "error")
  ∧ ∀ (v4 : bool) (call : Call),
      inr call ∈ [set_active number v4 b; set_arm number v4 type b; trigger_motion number;
                  set_sensitivity number level; ptz_action number command] →
      query call !! "cameraNum" = Some (Asyn.VInt number).
Proof.
  split_and!; [done | done |].
  intros v4 call Hin.
  assert (∀ req act q, q !! "cameraNum" = None →
            query (_request number req act q) !! "cameraNum" = Some (Asyn.VInt number)) as Hq.
  { intros req act q Hnone. unfold _request. simpl.
    rewrite lookup_union_r by done. by rewrite lookup_singleton. }
  repeat (apply elem_of_cons in Hin as [Hin|Hin]);
    [ .. | by apply elem_of_nil in Hin ].
  all: unfold set_active, set_arm, trigger_motion, set_sensitivity, ptz_action in Hin.
  all: repeat case_match; simplify_eq; apply Hq; done.
Qed.

Lemma X22_witness :
  query (_request 3 "/++ptz/command" "GET" {[ "command" := Asyn.VStr "12" ]}) !! "cameraNum"
  = Some (Asyn.VInt 3).
Proof.
  apply (proj2 (proj2 (X22_camera_requests 3 true "Actions" (Asyn.VStr "50") (Asyn.VStr "12")))
           true).
  rewrite !elem_of_cons. do 4 right. left. reflexivity.
Defined.

End ControlMore.

(** ** The request as written *)

Section SendMore.
Import Send.

Lemma digit_of_nat (d : nat) :
  (d < 10)%nat → Py.digit (ascii_of_nat (48 + d)) = Some (Z.of_nat d).
Proof. intros Hd. do 10 (destruct d as [|d]; [reflexivity|]). lia. Qed.

Lemma decimal_from_S (fuel n : nat) (acc : string) :
  decimal_from (S fuel) n acc
  = if (n <? 10)%nat then String (ascii_of_nat (48 + n mod 10)) acc
    else decimal_from fuel (n / 10) (String (ascii_of_nat (48 + n mod 10)) acc).
Proof. reflexivity. Qed.

Lemma int_digits_cons (a : Z) (c : ascii) (s : string) :
  Py.int_digits a (String c s)
  = match Py.digit c with
    | Some d => Py.int_digits (10 * a + d) s
    | None => None
    end.
Proof. reflexivity. Qed.

(** Reading the digits back gives the number; [k] is how many were written. *)
Lemma decimal_from_read (fuel n : nat) (acc : string) :
  (n < fuel)%nat →
  ∃ k : nat, ∀ a : Z,
    Py.int_digits a (decimal_from fuel n acc)
    = Py.int_digits (a * 10 ^ Z.of_nat k + Z.of_nat n) acc.
Proof.
  revert n acc. induction fuel as [|fuel IH]; intros n acc Hn; [lia|].
  rewrite decimal_from_S. destruct (n <? 10)%nat eqn:Hlt.
  - apply Nat.ltb_lt in Hlt. exists 1%nat. intros a.
    rewrite int_digits_cons, Nat.mod_small by done. rewrite (digit_of_nat n Hlt).
    f_equal. change (Z.of_nat 1) with 1. rewrite Z.pow_1_r. lia.
  - apply Nat.ltb_ge in Hlt.
    assert (n / 10 < fuel)%nat as Hdiv.
    { pose proof (Nat.div_lt n 10). lia. }
    destruct (IH (n / 10)%nat (String (ascii_of_nat (48 + n mod 10)) acc) Hdiv) as [k Hk].
    exists (S k). intros a. rewrite Hk, int_digits_cons.
    rewrite (digit_of_nat (n mod 10)) by (apply Nat.mod_upper_bound; lia).
    f_equal.
    rewrite Nat2Z.inj_succ, Z.pow_succ_r by lia.
    pose proof (Nat.div_mod_eq n 10) as Hdm.
    assert (Z.of_nat n = 10 * Z.of_nat (n / 10) + Z.of_nat (n mod 10)) by lia.
    lia.
Qed.

(** The text of a number starts with a digit. *)
Lemma decimal_from_head (fuel n : nat) (acc : string) :
  (0 < fuel)%nat →
  ∃ (d : nat) (s : string),
    (d < 10)%nat ∧ decimal_from fuel n acc = String (ascii_of_nat (48 + d)) s.
Proof.
  revert n acc. induction fuel as [|fuel IH]; intros n acc Hf; [lia|].
  rewrite decimal_from_S. destruct (n <? 10)%nat.
  - exists (n mod 10)%nat, acc. split; [apply Nat.mod_upper_bound; lia | done].
  - destruct fuel as [|fuel'].
    + exists (n mod 10)%nat, acc. split; [apply Nat.mod_upper_bound; lia | done].
    + apply IH. lia.
Qed.

Lemma int_str_of_nat (n : nat) : Py.int (str_of_nat n) = Return (Z.of_nat n).
Proof.
  unfold str_of_nat.
  destruct (decimal_from_read (S n) n EmptyString) as [k Hk]; [lia|].
  destruct (decimal_from_head (S n) n EmptyString) as (d & s & Hd & Hs); [lia|].
  specialize (Hk 0). rewrite Hs in *.
  assert (Py.int (String (ascii_of_nat (48 + d)) s)
          = Py.int_unsigned (String (ascii_of_nat (48 + d)) s)) as ->.
  { do 10 (destruct d as [|d]; [reflexivity|]). lia. }
  unfold Py.int_unsigned. rewrite Hk. reflexivity.
Qed.

Lemma append_assoc (a b c : string) : (a +:+ b) +:+ c = a +:+ b +:+ c.
Proof. induction a as [|x a IH]; [done|]. by rewrite !append_cons, IH. Qed.

Lemma length_append (a b : string) :
  String.length (a +:+ b) = (String.length a + String.length b)%nat.
Proof. induction a as [|x a IH]; [done|]. rewrite append_cons. simpl. by rewrite IH. Qed.

Lemma written_app (l1 l2 : list string) :
  written (l1 ++ l2) = written l1 +:+ written l2.
Proof.
  induction l1 as [|it l1 IH]; [done|].
  simpl. rewrite IH. rewrite append_assoc. by rewrite !append_cons.
Qed.

(** X23. A POST with form fields [q] is written as the request line (whose
    target does not carry the fields), the headers, then a Content-Length
    line, the form content type, a blank line and [q]. The declared length
    reads back with [int] as the length of [q], while the text written after
    the blank line is [q] followed by CR LF: two characters more. *)
Theorem X23_post_form_framing (self : Request) (q : string) :
  action self = "POST" →
  query self = Some q →
  ∃ (head : list string) (declared body : string),
    _sendRequest self
    = head ++ [ "Content-Length: " +:+ declared;
                "Content-Type: application/x-www-form-urlencoded"; ""; q ]
    ∧ hd_error head
      = Some ("POST " +:+
              (let uri := urlunsplit (target_path self) (target_query self) (target_fragment self) in
               match uri with EmptyString => "/" | _ => uri end) +:+ " HTTP/" +:+ http_version self)
    ∧ Py.int declared = Return (Z.of_nat (String.length q))
    ∧ written (_sendRequest self)
      = written head +:+ "Content-Length: " +:+ declared +:+ String "013" (String "010"
          ("Content-Type: application/x-www-form-urlencoded" +:+ String "013" (String "010"
             (String "013" (String "010" body)))))
    ∧ String.length body = (String.length q + 2)%nat.
Proof.
  intros Ha Hq.
  exists ([ action self +:+ " " +:+
              (let uri := urlunsplit (target_path self) (target_query self) (target_fragment self) in
               match uri with EmptyString => "/" | _ => uri end) +:+ " HTTP/" +:+ http_version self;
            "Host: " +:+ host self;
            "Connection: close" ]
          ++ header_lines self
          ++ match auth_line self with Some l => [l] | None => [] end),
         (str_of_nat (String.length q)),
         (q +:+ String "013" (String "010" EmptyString)).
  assert (_sendRequest self
          = ([ action self +:+ " " +:+
                 (let uri := urlunsplit (target_path self) (target_query self) (target_fragment self) in
                  match uri with EmptyString => "/" | _ => uri end) +:+ " HTTP/" +:+ http_version self;
               "Host: " +:+ host self;
               "Connection: close" ]
             ++ header_lines self
             ++ match auth_line self with Some l => [l] | None => [] end)
            ++ [ "Content-Length: " +:+ str_of_nat (String.length q);
                 "Content-Type: application/x-www-form-urlencoded"; ""; q ]) as Hsend.
  { unfold _sendRequest. rewrite Hq, Ha. simpl. by rewrite <- !app_assoc. }
  split_and!.
  - exact Hsend.
  - simpl. by rewrite Ha.
  - apply int_str_of_nat.
  - rewrite Hsend, written_app. reflexivity.
  - rewrite length_append. simpl. lia.
Qed.

Lemma X23_witness :
  ∃ (head : list string) (declared body : string),
    _sendRequest
      {| action := "POST"; target_path := "/++camerasetup"; target_query := "";
         target_fragment := ""; query := Some "cameraNum=3&action=save";
         host := "spy.local"; http_version := "1.0";
         header_lines := ["User-Agent: cy-asyn/1.1"]; auth_line := None;
         body_request := None |}
    = head ++ [ "Content-Length: " +:+ declared;
                "Content-Type: application/x-www-form-urlencoded"; "";
                "cameraNum=3&action=save" ]
    ∧ hd_error head = Some "POST /++camerasetup HTTP/1.0"
    ∧ Py.int declared = Return 23
    ∧ String.length body = 25%nat.
Proof.
  destruct (X23_post_form_framing
              {| action := "POST"; target_path := "/++camerasetup"; target_query := "";
                 target_fragment := ""; query := Some "cameraNum=3&action=save";
                 host := "spy.local"; http_version := "1.0";
                 header_lines := ["User-Agent: cy-asyn/1.1"]; auth_line := None;
                 body_request := None |}
              "cameraNum=3&action=save" eq_refl eq_refl)
    as (head & declared & body & H1 & H2 & H3 & _ & H5).
  exists head, declared, body. split_and!; [exact H1 | exact H2 | exact H3 | exact H5].
Defined.

(** X24. [open] adds the default User-Agent only when the request has
    none: a header the caller added under any spelling of the name is left
    alone, and opening again adds nothing. *)
Theorem X24_default_user_agent (h : HeaderDict.t) :
  (∀ name value : string,
      Py.lower name = "user-agent" →
      open_headers (HeaderDict.add name value h) = HeaderDict.add name value h)
  ∧ open_headers (open_headers h) = open_headers h
  ∧ (h !! "User-Agent" = None →
     HeaderDict.stored (open_headers h) "User-Agent" = [DEFAULT_AGENT]).
Proof.
  assert (∀ name value h', HeaderDict._key name = "User-Agent" →
            is_Some (HeaderDict.add name value h' !! "User-Agent")) as Hadd.
  { intros name value h' Hk. unfold HeaderDict.add. rewrite Hk.
    destruct (h' !! "User-Agent") as [[p|l]|]; rewrite lookup_insert; eauto. }
  assert (∀ h', is_Some (h' !! "User-Agent") → open_headers h' = h') as Hkeep.
  { intros h' [v Hv]. unfold open_headers. by rewrite Hv. }
  split_and!.
  - intros name value Hl. apply Hkeep, Hadd.
    exact (_key_case_insensitive name "User-Agent" Hl).
  - destruct (h !! "User-Agent") eqn:Hh.
    + by rewrite !(Hkeep h) by eauto.
    + apply Hkeep. unfold open_headers. rewrite Hh. by apply Hadd.
  - intros Hh. unfold open_headers. rewrite Hh.
    unfold HeaderDict.stored, HeaderDict.add.
    change (HeaderDict._key "User-Agent") with "User-Agent".
    by rewrite Hh, lookup_insert.
Qed.

Lemma X24_witness :
  open_headers (HeaderDict.add "user-agent" "probe/2" ∅) = HeaderDict.add "user-agent" "probe/2" ∅.
Proof. apply (proj1 (X24_default_user_agent ∅)). reflexivity. Defined.

End SendMore.

(** ** Instances *)

Section Instances.
Import Core Plugin.


Lemma X18_witness :
  (Plugin.matches (λ _ : Z, false) (λ last th now, bool_decide (now < last + th))
     {| Plugin.camera := None; Plugin.throttle := 10; Plugin.type := "motion";
        Plugin.trigger_reason := None; Plugin.recognition_type := "raw";
        Plugin.recognition_threshold := 0; Plugin.recognition_negate := false;
        Plugin.last_motion := Some 995 |}
     7 "motion" [] 1000).2
  = {| Plugin.camera := None; Plugin.throttle := 10; Plugin.type := "motion";
       Plugin.trigger_reason := None; Plugin.recognition_type := "raw";
       Plugin.recognition_threshold := 0; Plugin.recognition_negate := false;
       Plugin.last_motion := Some 995 |}.
Proof.
  generalize (X18_throttle_mark_moves_only_on_match
                (λ _ : Z, false) (λ last th now, bool_decide (now < last + th))
                {| Plugin.camera := None; Plugin.throttle := 10; Plugin.type := "motion";
                   Plugin.trigger_reason := None; Plugin.recognition_type := "raw";
                   Plugin.recognition_threshold := 0; Plugin.recognition_negate := false;
                   Plugin.last_motion := Some 995 |}
                7 "motion" [] 1000).
  vm_compute. intros [_ H]. apply H. discriminate.
Defined.

End Instances.
